(** * zonaR: the survey analysis script, embedded and verified

    A shallow embedding of [analysis.py]: the column-name cleaning, the
    demographic tabulation and the Net Promoter Score computation.

    Conventions of the embedding.
    - A Python [str] is the list of its Unicode code points.
    - A float64 is either an exact rational or one of the two infinities;
      NaN is the missing value.  The arithmetic of the tabulation
      ([value_counts(normalize=True).mul(100).round(2)]) is binary64
      arithmetic, every operation rounded to the nearest float, a tie to the
      even one.  The three percentages and the score of [calculate_nps],
      which the script prints with two decimals, are carried as the exact
      quotients: their rounding error is not modelled.
    - The labels of a frame are texts.  A frame without columns carries the
      integer range that the library gives it, on which the text accessor
      [.str] is refused; a header of numbers is not modelled.
    - [print] appends a structured [line] to the output of the run; the
      payload of a line is the value handed to the format string.
    - The data-frame library and the Unicode database are not part of the
      repository: their tables are parameters ([UnicodeData], the numeric
      parser of [to_numeric]) and their operations are written out here
      after their documented behaviour. *)

From Stdlib Require Import List Bool NArith ZArith QArith Qround Qabs Qpower.
From Stdlib Require Import Lia Lqa.
From Stdlib Require Import Permutation Sorted String Ascii.
From Stdlib Require Strings.Byte.
Import ListNotations.

Local Open Scope N_scope.
Local Open Scope list_scope.

(* ===================================================================== *)
(** * Python strings *)
(* ===================================================================== *)

Definition codepoint := N.
Definition str := list codepoint.

(** A string literal of the script, as code points. *)
Definition py (s : string) : str :=
  map N_of_ascii (list_ascii_of_string s).

Fixpoint str_eqb (a b : str) : bool :=
  match a, b with
  | [], [] => true
  | x :: a', y :: b' => (x =? y) && str_eqb a' b'
  | _, _ => false
  end.

Definition is_ascii (c : codepoint) : bool := c <? 128.

Definition is_upper_ascii (c : codepoint) : bool := (65 <=? c) && (c <=? 90).

(** A name is lowercase when it has no capital letter; on an ASCII-only
    string this is [s == s.lower()]. *)
Definition no_upper_ascii (s : str) : bool :=
  forallb (fun c => negb (is_upper_ascii c)) s.

Definition ascii_only (s : str) : bool := forallb is_ascii s.

(* ===================================================================== *)
(** * Output and exceptions *)
(* ===================================================================== *)

(** The missing value excluded, what a cell of the table holds. *)
Inductive number :=
| NegInf
| Finite (q : Q)
| PosInf.

Inductive value :=
| Num (x : number)
| Str (s : str).

(** A cell: a value, or missing ([None] / NaN). *)
Definition cell := option value.

Inductive exn :=
| KeyError
| TypeError
| ValueError
| UnicodeDecodeError
| ZeroDivisionError
| AttributeError.

Inductive line :=
| BannerCleaning                         (* --- Cleaning column names --- *)
| CleanedOk                              (* Column names cleaned successfully. *)
| CleanedExample                         (* Example of changes: ... *)
| BannerDemographics                     (* --- Performing Demographic Analysis --- *)
| InfoAnalysis (var : str)               (* [INFO] Analysis of 'var': *)
| Tabulation (rows : list (value * Q))   (* the printed Series, label and percentage *)
| WarnColumnNotFound (var : str)         (* [WARNING] Column 'var' not found ... *)
| BannerNps                              (* --- Calculating Net Promoter Score (NPS) --- *)
| WarnNpsNotFound                        (* [WARNING] 'nps' column not found. ... *)
| InfoNoValidNps                         (* [INFO] No valid NPS scores found. *)
| TotalRespondents (n : nat)
| Promoters (n : nat) (pct : Q)
| Passives (n : nat) (pct : Q)
| Detractors (n : nat) (pct : Q)
| FinalNps (score : Q).

(** A run prints lines and either returns or raises. *)
Definition Out (A : Type) : Type := (list line * (exn + A))%type.

Definition ret {A} (a : A) : Out A := ([], inr a).
Definition raise {A} (e : exn) : Out A := ([], inl e).
Definition print (l : line) : Out unit := ([l], inr tt).

Definition bind {A B} (m : Out A) (f : A -> Out B) : Out B :=
  match m with
  | (o, inl e) => (o, inl e)
  | (o, inr a) => let (o', r) := f a in (o ++ o', r)
  end.

Definition printed {A} (m : Out A) : list line := fst m.
Definition result {A} (m : Out A) : exn + A := snd m.

Declare Scope out_scope.
Delimit Scope out_scope with out.
Notation "x <- m ;; k" := (bind m (fun x => k))
  (at level 61, m at next level, right associativity) : out_scope.
Notation "m ;; k" := (bind m (fun _ => k))
  (at level 61, right associativity) : out_scope.

(* ===================================================================== *)
(** * The Unicode operations of [clean_column_names] *)
(* ===================================================================== *)

(** The tables of the Unicode Character Database that [str.lower] and
    [unicodedata.normalize] consult. *)
Record UnicodeData := {
  (** full lowercase mapping of one code point (one to three code points) *)
  lower_full : codepoint -> list codepoint;
  (** the Cased property *)
  cased : codepoint -> bool;
  (** the Case_Ignorable property *)
  case_ignorable : codepoint -> bool;
  (** compatibility decomposition, applied until nothing decomposes
      (a code point without one maps to itself) *)
  compat_decomposition : codepoint -> list codepoint;
  (** canonical combining class *)
  combining : codepoint -> N
}.

Section Unicode.
Variable U : UnicodeData.

Definition first_not_ignorable (s : str) : option codepoint :=
  find (fun c => negb (case_ignorable U c)) s.

(** [handle_capital_sigma]: U+03A3 lowers to the final sigma U+03C2 when
    it follows a cased letter and is not followed by one, case-ignorable
    characters skipped on both sides. [before] is the text to the left,
    nearest character first. *)
Definition handle_capital_sigma (before after : str) : codepoint :=
  let preceded :=
    match first_not_ignorable before with
    | Some c => cased U c
    | None => false
    end in
  let final_sigma :=
    preceded &&
    match first_not_ignorable after with
    | Some c => negb (cased U c)
    | None => true
    end in
  if final_sigma then 0x3C2 else 0x3C3.

Fixpoint do_lower (before s : str) : str :=
  match s with
  | [] => []
  | c :: rest =>
      (if c =? 0x3A3 then [handle_capital_sigma before rest]
       else lower_full U c) ++ do_lower (c :: before) rest
  end.

(** [str.lower()] *)
Definition lower (s : str) : str := do_lower [] s.

(** One step of the canonical ordering: [c] is appended to the text
    [out] (held last character first) and moves left over the combining
    marks of a greater class. *)
Fixpoint canonical_insert (c : codepoint) (out : str) : str :=
  match out with
  | [] => [c]
  | p :: r =>
      if negb (combining U c =? 0) && negb (combining U p =? 0)
         && (combining U c <? combining U p)
      then p :: canonical_insert c r
      else c :: out
  end.

Definition canonical_order (s : str) : str :=
  rev (fold_left (fun out c => canonical_insert c out) s []).

(** [unicodedata.normalize('NFKD', s)] *)
Definition normalize_NFKD (s : str) : str :=
  canonical_order (flat_map (compat_decomposition U) s).
End Unicode.

(** [s.encode('ascii', errors='ignore')]: a code point that ASCII cannot
    encode is left out. *)
Definition encode_ascii_ignore (s : str) : list Byte.byte :=
  flat_map (fun c =>
              if is_ascii c
              then match Byte.of_N c with Some b => [b] | None => [] end
              else []) s.

Definition continuation (b : Byte.byte) : bool :=
  (0x80 <=? Byte.to_N b) && (Byte.to_N b <=? 0xBF).

Definition payload (b : Byte.byte) : N := N.land (Byte.to_N b) 0x3F.

(** [b.decode('utf-8')], strict: [None] is UnicodeDecodeError. *)
Fixpoint decode_utf8 (bs : list Byte.byte) : option str :=
  match bs with
  | [] => Some []
  | b0 :: r0 =>
      let n0 := Byte.to_N b0 in
      if n0 <? 0x80 then option_map (cons n0) (decode_utf8 r0)
      else if (0xC2 <=? n0) && (n0 <=? 0xDF) then
        match r0 with
        | b1 :: r1 =>
            if continuation b1
            then option_map
                   (cons (N.shiftl (N.land n0 0x1F) 6 + payload b1))
                   (decode_utf8 r1)
            else None
        | _ => None
        end
      else if (0xE0 <=? n0) && (n0 <=? 0xEF) then
        match r0 with
        | b1 :: b2 :: r2 =>
            let c := N.shiftl (N.land n0 0x0F) 12
                     + N.shiftl (payload b1) 6 + payload b2 in
            if continuation b1 && continuation b2
               && (0x800 <=? c) && negb ((0xD800 <=? c) && (c <=? 0xDFFF))
            then option_map (cons c) (decode_utf8 r2)
            else None
        | _ => None
        end
      else if (0xF0 <=? n0) && (n0 <=? 0xF4) then
        match r0 with
        | b1 :: b2 :: b3 :: r3 =>
            let c := N.shiftl (N.land n0 0x07) 18
                     + N.shiftl (payload b1) 12
                     + N.shiftl (payload b2) 6 + payload b3 in
            if continuation b1 && continuation b2 && continuation b3
               && (0x10000 <=? c) && (c <=? 0x10FFFF)
            then option_map (cons c) (decode_utf8 r3)
            else None
        | _ => None
        end
      else None
  end.

(* ===================================================================== *)
(** * Data frames *)
(* ===================================================================== *)

Definition Series := list cell.

(** The columns in their order, each under its label; labels may repeat. *)
Definition DataFrame := list (str * Series).

Definition columns (df : DataFrame) : list str := map fst df.

(** [label in df.columns] *)
Definition has_column (label : str) (df : DataFrame) : bool :=
  existsb (str_eqb label) (columns df).

(** What [df[label]] evaluates to. *)
Inductive selection :=
| OneSeries (s : Series)
| SubFrame (cols : list Series).

(** [df[label]]: the column, the sub-frame of all columns under a repeated
    label, or KeyError. *)
Definition getitem (df : DataFrame) (label : str) : Out selection :=
  match filter (fun col => str_eqb label (fst col)) df with
  | [] => raise KeyError
  | [col] => ret (OneSeries (snd col))
  | cols => ret (SubFrame (map snd cols))
  end.

(* ===================================================================== *)
(** * clean_column_names *)
(* ===================================================================== *)

Section Cleaning.
Variable U : UnicodeData.

(** One label through
    [.str.lower().str.normalize('NFKD').str.encode('ascii', errors='ignore').str.decode('utf-8')]. *)
Definition clean_label (name : str) : Out str :=
  match decode_utf8 (encode_ascii_ignore (normalize_NFKD U (lower U name))) with
  | Some s => ret s
  | None => raise UnicodeDecodeError
  end.

(** The label [clean_label] returns. *)
Definition cleaned (name : str) : str :=
  filter is_ascii (normalize_NFKD U (lower U name)).

Fixpoint clean_labels (names : list str) : Out (list str) :=
  match names with
  | [] => ret []
  | n :: rest =>
      (n' <- clean_label n ;;
       rest' <- clean_labels rest ;;
       ret (n' :: rest'))%out
  end.

(** [index.str], the accessor of the text methods.  The library grants it
    to an index of texts and refuses it to any other with an AttributeError.
    The index of a frame without columns is a range of integers (what the
    constructor gives, and [read_excel] on an empty sheet); the labels of
    any other frame are texts. *)
Definition str_accessor (labels : list str) : Out (list str) :=
  match labels with
  | [] => raise AttributeError
  | _ :: _ => ret labels
  end.

(** [df.columns = cleaned_columns]: the labels are replaced position by
    position. *)
Definition set_columns (df : DataFrame) (labels : list str) : DataFrame :=
  combine labels (map snd df).

Definition clean_column_names (df : DataFrame) : Out DataFrame :=
  (print BannerCleaning ;;
   labels <- str_accessor (columns df) ;;
   cleaned_columns <- clean_labels labels ;;
   let df := set_columns df cleaned_columns in
   print CleanedOk ;;
   print CleanedExample ;;
   ret df)%out.
End Cleaning.

(* ===================================================================== *)
(** * An excerpt of the Unicode Character Database *)
(* ===================================================================== *)

(** The excerpt covers Basic Latin and the Latin-1 Supplement
    (U+0000..U+00FF), the combining marks U+0300..U+0308, U+030A and U+0327,
    the Greek letters U+03A3, U+03BC, U+03C2 and U+03C3, the fraction slash
    U+2044 and the trade mark sign U+2122, with the values of UnicodeData.txt.
    It is used to run the cleaning on names written with these characters. *)
Module Excerpt.

Definition in_excerpt (c : codepoint) : bool :=
  (c <=? 0xFF) || ((0x300 <=? c) && (c <=? 0x308))
  || existsb (N.eqb c) [0x30A; 0x327; 0x3A3; 0x3BC; 0x3C2; 0x3C3; 0x2044; 0x2122].

Definition lower_full (c : codepoint) : list codepoint :=
  if (0x41 <=? c) && (c <=? 0x5A) then [c + 0x20]
  else if (0xC0 <=? c) && (c <=? 0xDE) && negb (c =? 0xD7) then [c + 0x20]
  else if c =? 0x3A3 then [0x3C3]
  else [c].

Definition cased (c : codepoint) : bool :=
  ((0x41 <=? c) && (c <=? 0x5A)) || ((0x61 <=? c) && (c <=? 0x7A))
  || ((0xC0 <=? c) && (c <=? 0xFF) && negb (c =? 0xD7) && negb (c =? 0xF7))
  || existsb (N.eqb c) [0xAA; 0xB5; 0xBA; 0x3A3; 0x3BC; 0x3C2; 0x3C3].

Definition case_ignorable (c : codepoint) : bool :=
  existsb (N.eqb c)
    [0x27; 0x2E; 0x3A; 0x5E; 0x60; 0xA8; 0xAD; 0xAF; 0xB4; 0xB7; 0xB8;
     0x30A; 0x327]
  || ((0x300 <=? c) && (c <=? 0x308)).

Definition compat_decomposition (c : codepoint) : list codepoint :=
  match c with
  | 0x00A0 => [0x0020]
  | 0x00A8 => [0x0020; 0x0308]
  | 0x00AA => [0x0061]
  | 0x00AF => [0x0020; 0x0304]
  | 0x00B2 => [0x0032]
  | 0x00B3 => [0x0033]
  | 0x00B4 => [0x0020; 0x0301]
  | 0x00B5 => [0x03BC]
  | 0x00B8 => [0x0020; 0x0327]
  | 0x00B9 => [0x0031]
  | 0x00BA => [0x006F]
  | 0x00BC => [0x0031; 0x2044; 0x0034]
  | 0x00BD => [0x0031; 0x2044; 0x0032]
  | 0x00BE => [0x0033; 0x2044; 0x0034]
  | 0x00C0 => [0x0041; 0x0300]
  | 0x00C1 => [0x0041; 0x0301]
  | 0x00C2 => [0x0041; 0x0302]
  | 0x00C3 => [0x0041; 0x0303]
  | 0x00C4 => [0x0041; 0x0308]
  | 0x00C5 => [0x0041; 0x030A]
  | 0x00C7 => [0x0043; 0x0327]
  | 0x00C8 => [0x0045; 0x0300]
  | 0x00C9 => [0x0045; 0x0301]
  | 0x00CA => [0x0045; 0x0302]
  | 0x00CB => [0x0045; 0x0308]
  | 0x00CC => [0x0049; 0x0300]
  | 0x00CD => [0x0049; 0x0301]
  | 0x00CE => [0x0049; 0x0302]
  | 0x00CF => [0x0049; 0x0308]
  | 0x00D1 => [0x004E; 0x0303]
  | 0x00D2 => [0x004F; 0x0300]
  | 0x00D3 => [0x004F; 0x0301]
  | 0x00D4 => [0x004F; 0x0302]
  | 0x00D5 => [0x004F; 0x0303]
  | 0x00D6 => [0x004F; 0x0308]
  | 0x00D9 => [0x0055; 0x0300]
  | 0x00DA => [0x0055; 0x0301]
  | 0x00DB => [0x0055; 0x0302]
  | 0x00DC => [0x0055; 0x0308]
  | 0x00DD => [0x0059; 0x0301]
  | 0x00E0 => [0x0061; 0x0300]
  | 0x00E1 => [0x0061; 0x0301]
  | 0x00E2 => [0x0061; 0x0302]
  | 0x00E3 => [0x0061; 0x0303]
  | 0x00E4 => [0x0061; 0x0308]
  | 0x00E5 => [0x0061; 0x030A]
  | 0x00E7 => [0x0063; 0x0327]
  | 0x00E8 => [0x0065; 0x0300]
  | 0x00E9 => [0x0065; 0x0301]
  | 0x00EA => [0x0065; 0x0302]
  | 0x00EB => [0x0065; 0x0308]
  | 0x00EC => [0x0069; 0x0300]
  | 0x00ED => [0x0069; 0x0301]
  | 0x00EE => [0x0069; 0x0302]
  | 0x00EF => [0x0069; 0x0308]
  | 0x00F1 => [0x006E; 0x0303]
  | 0x00F2 => [0x006F; 0x0300]
  | 0x00F3 => [0x006F; 0x0301]
  | 0x00F4 => [0x006F; 0x0302]
  | 0x00F5 => [0x006F; 0x0303]
  | 0x00F6 => [0x006F; 0x0308]
  | 0x00F9 => [0x0075; 0x0300]
  | 0x00FA => [0x0075; 0x0301]
  | 0x00FB => [0x0075; 0x0302]
  | 0x00FC => [0x0075; 0x0308]
  | 0x00FD => [0x0079; 0x0301]
  | 0x00FF => [0x0079; 0x0308]
  | 0x2122 => [0x0054; 0x004D]
  | _ => [c]
  end.

Definition combining (c : codepoint) : N :=
  if ((0x300 <=? c) && (c <=? 0x308)) || (c =? 0x30A) then 230
  else if c =? 0x327 then 202
  else 0.

Definition ucd : UnicodeData :=
  Build_UnicodeData lower_full cased case_ignorable compat_decomposition
    combining.

End Excerpt.

(* ===================================================================== *)
(** * Numeric columns *)
(* ===================================================================== *)

Definition number_leb (a b : number) : bool :=
  match a, b with
  | NegInf, _ => true
  | _, PosInf => true
  | Finite p, Finite q => Qle_bool p q
  | _, _ => false
  end.

Definition number_eqb (a b : number) : bool :=
  match a, b with
  | NegInf, NegInf => true
  | PosInf, PosInf => true
  | Finite p, Finite q => Qeq_bool p q
  | _, _ => false
  end.

(** [scores >= k] *)
Definition series_ge (scores : list number) (k : Q) : list bool :=
  map (fun x => number_leb (Finite k) x) scores.

(** [scores <= k] *)
Definition series_le (scores : list number) (k : Q) : list bool :=
  map (fun x => number_leb x (Finite k)) scores.

(** [scores.between(left, right)], both ends included. *)
Definition series_between (scores : list number) (left right : Q) : list bool :=
  map (fun x => number_leb (Finite left) x && number_leb x (Finite right))
      scores.

(** [mask.sum()]: the number of [True] entries. *)
Definition series_sum (mask : list bool) : nat := count_occ bool_dec mask true.

(** [series.dropna()] *)
Definition dropna {A} (s : list (option A)) : list A :=
  flat_map (fun c => match c with Some x => [x] | None => [] end) s.

(** [a / b] on two counts.  numpy reports a zero divisor by a warning and
    yields nan; the embedding records it as [ZeroDivisionError], so that a
    run free of it has never divided by zero. *)
Definition true_divide (a b : nat) : Out Q :=
  match b with
  | O => raise ZeroDivisionError
  | S _ => ret (inject_Z (Z.of_nat a) / inject_Z (Z.of_nat b))%Q
  end.

Section Numeric.
(** The text-to-number parser of [pd.to_numeric]: [None] when the text is
    not a number (or reads as nan). *)
Variable parse_number : str -> option number.

Definition coerce (c : cell) : option number :=
  match c with
  | None => None
  | Some (Num x) => Some x
  | Some (Str s) => parse_number s
  end.

(** [pd.to_numeric(arg, errors='coerce')]: a cell that is no number
    becomes NaN; a two-dimensional argument is refused. *)
Definition to_numeric (arg : selection) : Out (list (option number)) :=
  match arg with
  | OneSeries s => ret (map coerce s)
  | SubFrame _ => raise TypeError
  end.

Definition calculate_nps (df : DataFrame) : Out unit :=
  (print BannerNps ;;
   if negb (has_column (py "nps") df) then
     print WarnNpsNotFound
   else
     column <- getitem df (py "nps") ;;
     nps_scores <- to_numeric column ;;
     let nps_scores := dropna nps_scores in
     let promoters := series_sum (series_ge nps_scores 9) in
     let passives := series_sum (series_between nps_scores 7 8) in
     let detractors := series_sum (series_le nps_scores 6) in
     let total_respondents := List.length nps_scores in
     if Nat.eqb total_respondents 0 then
       print InfoNoValidNps
     else
       p <- true_divide promoters total_respondents ;;
       let promoter_percentage := (p * 100)%Q in
       d <- true_divide detractors total_respondents ;;
       let detractor_percentage := (d * 100)%Q in
       let nps_score := (promoter_percentage - detractor_percentage)%Q in
       print (TotalRespondents total_respondents) ;;
       print (Promoters promoters promoter_percentage) ;;
       q <- true_divide passives total_respondents ;;
       print (Passives passives (q * 100)%Q) ;;
       print (Detractors detractors detractor_percentage) ;;
       print (FinalNps nps_score))%out.
End Numeric.

(* ===================================================================== *)
(** * Demographic tabulation *)
(* ===================================================================== *)

Definition value_eqb (a b : value) : bool :=
  match a, b with
  | Num x, Num y => number_eqb x y
  | Str s, Str t => str_eqb s t
  | _, _ => false
  end.

(** One more occurrence of [v] in the table of counts. *)
Fixpoint tally (v : value) (counts : list (value * nat)) : list (value * nat) :=
  match counts with
  | [] => [(v, 1%nat)]
  | (w, n) :: rest =>
      if value_eqb w v then (w, S n) :: rest else (w, n) :: tally v rest
  end.

Fixpoint insert_desc (e : value * nat) (l : list (value * nat))
  : list (value * nat) :=
  match l with
  | [] => [e]
  | h :: t => if (snd h <=? snd e)%nat then e :: l else h :: insert_desc e t
  end.

(** [sort_values(ascending=False)] on the counts, by insertion. *)
Definition sort_desc (l : list (value * nat)) : list (value * nat) :=
  fold_right insert_desc [] l.

(** [series.value_counts()]: missing cells dropped, one row per distinct
    value with the number of its occurrences, most frequent first.  Rows of
    equal count stand here in the order in which their values first occur;
    the library promises no order among them, and no statement below
    depends on one. *)
Definition value_counts (s : Series) : list (value * nat) :=
  sort_desc (fold_left (fun counts v => tally v counts) (dropna s) []).

Definition total (counts : list (value * nat)) : nat :=
  fold_right (fun e acc => (snd e + acc)%nat) 0%nat counts.

(** A count as the rational the division works on. *)
Definition Qnat (n : nat) : Q := inject_Z (Z.of_nat n).

(** Rounding to the nearest integer, a tie to the even one. *)
Definition rint (q : Q) : Z :=
  let f := Qfloor q in
  match (q - inject_Z f ?= 1 # 2)%Q with
  | Lt => f
  | Gt => (f + 1)%Z
  | Eq => if Z.even f then f else (f + 1)%Z
  end.

(** ** Binary64 arithmetic

    A float64 that is not NaN or infinite is a rational [m * 2^e] with [m]
    an integer below [2^53] in absolute value and [e] at least [-1074].  An
    operation of the library on floats is the exact operation followed by
    the rounding to the nearest such rational, a tie to the one with the
    even [m].  The largest float is far above any count and any percentage:
    overflow is not modelled. *)

Definition two_power (e : Z) : Q := Qpower 2 e.

(** The exponent [k] with [2^k <= q < 2^(k+1)], for a positive [q]. *)
Definition binade (q : Q) : Z :=
  let k := (Z.log2 (Qnum q) - Z.log2 (Zpos (Qden q)))%Z in
  if Qle_bool (two_power k) q then k else (k - 1)%Z.

(** The exponent of the last place of the floats around [q]: 53 significant
    bits, and no less than the exponent of the subnormal floats. *)
Definition exponent (q : Q) : Z := Z.max (binade (Qabs q) - 52) (-1074).

(** The float nearest to [q]. *)
Definition binary64 (q : Q) : Q :=
  if Qeq_bool q 0 then 0
  else Qred (inject_Z (rint (q / two_power (exponent q)))
             * two_power (exponent q)).

(** Half the distance from 1 to the next float, and half the smallest
    positive float. *)
Definition unit_roundoff : Q := two_power (-53).
Definition underflow : Q := two_power (-1075).

(** A decimal bound on both. *)
Definition roundoff_bound : Q := 1 # 9000000000000000.

(** Division and multiplication of floats. *)
Definition fdiv (a b : Q) : Q := binary64 (a / b).
Definition fmul (a b : Q) : Q := binary64 (a * b).

(** An integer count converted for a division. *)
Definition of_count (n : nat) : Q := binary64 (Qnat n).

(** [value_counts(normalize=True)]: each count over the sum of the counts,
    the true division of two integer arrays: both converted to floats, then
    divided. *)
Definition normalized (counts : list (value * nat)) : list (value * Q) :=
  map (fun e => (fst e, fdiv (of_count (snd e)) (of_count (total counts))))
      counts.

(** [.mul(k)] *)
Definition table_mul (t : list (value * Q)) (k : Q) : list (value * Q) :=
  map (fun e => (fst e, fmul (snd e) k)) t.

(** [.round(2)] on floats: times 100, rounded to the nearest integer, over
    100. *)
Definition round2 (x : Q) : Q := fdiv (inject_Z (rint (fmul x 100))) 100.

Definition table_round (t : list (value * Q)) : list (value * Q) :=
  map (fun e => (fst e, round2 (snd e))) t.

(** [column.value_counts(normalize=True)]; grouping a sub-frame whose columns
    share one label is refused. *)
Definition value_counts_normalized (column : selection) : Out (list (value * Q)) :=
  match column with
  | OneSeries s => ret (normalized (value_counts s))
  | SubFrame _ => raise ValueError
  end.

Definition demographic_vars : list str :=
  [py "sexo"; py "edad_tramo"; py "depto"].

(** The body of the loop of [analyze_demographics]. *)
Definition analyze_var (df : DataFrame) (var : str) : Out unit :=
  (if has_column var df then
     print (InfoAnalysis var) ;;
     column <- getitem df var ;;
     shares <- value_counts_normalized column ;;
     print (Tabulation (table_round (table_mul shares 100)))
   else
     print (WarnColumnNotFound var))%out.

Fixpoint for_each {A} (body : A -> Out unit) (l : list A) : Out unit :=
  match l with
  | [] => ret tt
  | x :: rest => (body x ;; for_each body rest)%out
  end.

Definition analyze_demographics (df : DataFrame) : Out unit :=
  (print BannerDemographics ;;
   for_each (analyze_var df) demographic_vars)%out.

(* ===================================================================== *)
(** * Vocabulary of the statements *)
(* ===================================================================== *)

Inductive band := Detractor | Passive | Promoter.

(** The entries of the three masks of [calculate_nps] for one score. *)
Definition is_promoter (v : number) : bool := number_leb (Finite 9) v.
Definition is_passive (v : number) : bool :=
  number_leb (Finite 7) v && number_leb v (Finite 8).
Definition is_detractor (v : number) : bool := number_leb v (Finite 6).

(** The bands whose mask holds for [v]. *)
Definition bands (v : number) : list band :=
  (if is_detractor v then [Detractor] else [])
  ++ (if is_passive v then [Passive] else [])
  ++ (if is_promoter v then [Promoter] else []).

(** [v] lies in the closed interval from 0 to 10. *)
Definition in_0_10 (v : number) : bool :=
  number_leb (Finite 0) v && number_leb v (Finite 10).

Section Scores.
Variable parse_number : str -> option number.

(** The scores [calculate_nps] works on: the cells of the field that
    coerce to a number. *)
Definition scores_of (col : Series) : list number :=
  dropna (map (coerce parse_number) col).
End Scores.

Definition promoters_of (scores : list number) : nat :=
  series_sum (series_ge scores 9).
Definition passives_of (scores : list number) : nat :=
  series_sum (series_between scores 7 8).
Definition detractors_of (scores : list number) : nat :=
  series_sum (series_le scores 6).

(** [(count / total_respondents) * 100] *)
Definition percentage (count total_respondents : nat) : Q :=
  (Qnat count / Qnat total_respondents * 100)%Q.

Definition nps_score (scores : list number) : Q :=
  (percentage (promoters_of scores) (List.length scores)
   - percentage (detractors_of scores) (List.length scores))%Q.

(** The lines of a run of [calculate_nps] that reaches the score. *)
Definition report (scores : list number) : list line :=
  let t := List.length scores in
  [BannerNps;
   TotalRespondents t;
   Promoters (promoters_of scores) (percentage (promoters_of scores) t);
   Passives (passives_of scores) (percentage (passives_of scores) t);
   Detractors (detractors_of scores) (percentage (detractors_of scores) t);
   FinalNps (nps_score scores)].

(** The number of cells of a column equal to [v]. *)
Definition occurrences (v : value) (vs : list value) : nat :=
  List.length (filter (value_eqb v) vs).

(** The sum of the percentages of a tabulation. *)
Definition table_sum (t : list (value * Q)) : Q :=
  fold_right (fun e acc => (snd e + acc)%Q) 0%Q t.

(** The rows [analyze_demographics] prints for a field. *)
Definition tabulation (s : Series) : list (value * Q) :=
  table_round (table_mul (normalized (value_counts s)) 100).

(** The percentage printed for [n] cells among [t]. *)
Definition share (n t : nat) : Q :=
  round2 (fmul (fdiv (of_count n) (of_count t)) 100).

(** What the rounding of binary64 can add to the half cent of [.round(2)]
    in a printed percentage. *)
Definition tolerance : Q := 1 # 1000000000000.

(** The keys of a table of counts are pairwise different values. *)
Fixpoint distinct_keys (counts : list (value * nat)) : Prop :=
  match counts with
  | [] => True
  | (w, _) :: rest =>
      (forall e, In e rest -> value_eqb w (fst e) = false)
      /\ distinct_keys rest
  end.

(** A table of counts tells, for each value of [vs] once, how often it
    occurs in [vs]. *)
Definition counts_of (counts : list (value * nat)) (vs : list value) : Prop :=
  (forall w n, In (w, n) counts -> n = occurrences w vs)
  /\ (forall v, In v vs -> exists e, In e counts /\ value_eqb (fst e) v = true)
  /\ distinct_keys counts.

(** A reader of decimal integers with an optional minus sign.  The parser
    of [pd.to_numeric] reads these texts as the same numbers (and reads
    more texts than these); the examples below run with it. *)
Fixpoint digits (s : str) (acc : Z) : option Z :=
  match s with
  | [] => Some acc
  | c :: rest =>
      if (48 <=? c) && (c <=? 57)
      then digits rest (10 * acc + Z.of_N (c - 48))%Z
      else None
  end.

Definition parse_integer (s : str) : option number :=
  match s with
  | [] => None
  | 45 :: [] => None
  | 45 :: rest => option_map (fun z => Finite (inject_Z (- z))) (digits rest 0%Z)
  | _ => option_map (fun z => Finite (inject_Z z)) (digits s 0%Z)
  end.

(** A frame to run the analysis on: some respondents gave no score, one
    typed a remark, one typed a score outside the scale. *)
Definition survey_sexo : Series :=
  [Some (Str (py "F")); Some (Str (py "M")); Some (Str (py "F")); None;
   Some (Str (py "F")); Some (Str (py "M")); Some (Str (py "F"))].

Definition survey_nps : Series :=
  [Some (Num (Finite 10)); Some (Str (py "8")); None;
   Some (Str (py "n/a")); Some (Num (Finite 3)); Some (Str (py "-2"));
   Some (Num (Finite 9))].

Definition survey : DataFrame :=
  [(py "sexo", survey_sexo); (py "nps", survey_nps)].

(** A frame whose score field holds no number at all. *)
Definition survey_without_scores : DataFrame :=
  [(py "nps", [None; Some (Str (py "n/a")); Some (Str (py "")); None])].

(** A frame with one label in capitals and with the trade mark sign. *)
Definition branded : DataFrame := [(py "MARCA" ++ [0x2122], [])].

(* ===================================================================== *)
(** * Loading and the pipeline of [main] *)
(* ===================================================================== *)

(** A run that prints lines of type [L] and may raise an [E]; [Out] is the
    instance of the analysis steps. *)
Definition Run (L E A : Type) : Type := (list L * (E + A))%type.

Definition run_ret {L E A} (a : A) : Run L E A := ([], inr a).
Definition run_raise {L E A} (e : E) : Run L E A := ([], inl e).
Definition run_print {L E} (l : L) : Run L E unit := ([l], inr tt).

Definition run_bind {L E A B} (m : Run L E A) (f : A -> Run L E B)
  : Run L E B :=
  match m with
  | (o, inl e) => (o, inl e)
  | (o, inr a) => let (o', r) := f a in (o ++ o', r)
  end.

Declare Scope run_scope.
Delimit Scope run_scope with run.
Notation "x <- m ;; k" := (run_bind m (fun x => k))
  (at level 61, m at next level, right associativity) : run_scope.
Notation "m ;; k" := (run_bind m (fun _ => k))
  (at level 61, right associativity) : run_scope.

(** [s.startswith(prefix)] and [s.endswith(suffix)] *)
Fixpoint startswith (s prefix : str) : bool :=
  match prefix, s with
  | [], _ => true
  | _ :: _, [] => false
  | p :: prefix', c :: s' => (c =? p) && startswith s' prefix'
  end.

Definition endswith (s suffix : str) : bool :=
  startswith (rev s) (rev suffix).

(** [os.path.join(a, b)] on a POSIX system: an absolute [b] replaces [a];
    otherwise [b] is appended, after a slash unless [a] is empty or ends
    with one. *)
Definition path_join (a b : str) : str :=
  if startswith b (py "/") then b
  else if match a with [] => true | _ => false end || endswith a (py "/")
       then a ++ b
       else a ++ py "/" ++ b.

(** What a reader of the data-frame library answers: the frame, or the
    exception it raised with its message. *)
Inductive read_error :=
| FileNotFoundError (message : str)
| OtherError (message : str).

Definition message_of (e : read_error) : str :=
  match e with
  | FileNotFoundError m => m
  | OtherError m => m
  end.

Definition reader := str -> read_error + DataFrame.

Inductive script_line :=
| LoadingDataset (file_path : str)     (* --- Loading dataset: ... --- *)
| DatasetLoaded                        (* Dataset loaded successfully. *)
| ErrorFileNotFound (file_path : str)  (* [ERROR] File not found at ... *)
| ErrorLoading (e : str)               (* [ERROR] An error occurred while loading ... *)
| Step (l : line)                      (* a line of one of the analysis steps *)
| AnalysisComplete.                    (* --- Analysis Complete --- *)

(** An analysis step inside the script. *)
Definition step {A} (m : Out A) : Run script_line exn A :=
  (map Step (fst m), snd m).

Section Script.
Variable U : UnicodeData.
Variable parse_number : str -> option number.
Variable read_excel : reader.

Definition load_main_dataset (data_dir : str)
  : Run script_line exn (option DataFrame) :=
  let file_path := path_join data_dir (py "baseZona2024.xlsx") in
  (run_print (LoadingDataset file_path) ;;
   match read_excel file_path with
   | inr df => run_print DatasetLoaded ;; run_ret (Some df)
   | inl (FileNotFoundError _) =>
       run_print (ErrorFileNotFound file_path) ;; run_ret None
   | inl (OtherError e) =>
       run_print (ErrorLoading e) ;; run_ret None
   end)%run.

Definition main : Run script_line exn unit :=
  let data_directory := py "/tmp/datos/datos" in
  (df <- load_main_dataset data_directory ;;
   match df with
   | Some df =>
       df <- step (clean_column_names U df) ;;
       step (analyze_demographics df) ;;
       step (calculate_nps parse_number df) ;;
       run_print AnalysisComplete
   | None => run_ret tt
   end)%run.
End Script.

(* ===================================================================== *)
(** * The explorer of [data_exploration.py] *)
(* ===================================================================== *)

(** Lexicographic order on code points, the order of [sorted] on strings. *)
Fixpoint str_leb (a b : str) : bool :=
  match a, b with
  | [], _ => true
  | _ :: _, [] => false
  | x :: a', y :: b' =>
      if x <? y then true else if y <? x then false else str_leb a' b'
  end.

Fixpoint insert_sorted (s : str) (l : list str) : list str :=
  match l with
  | [] => [s]
  | h :: t => if str_leb s h then s :: l else h :: insert_sorted s t
  end.

(** [sorted(names)], by insertion: on strings the sorted list is the same
    whatever the algorithm. *)
Definition sorted (names : list str) : list str :=
  fold_right insert_sorted [] names.

(** [df.head()]: the first five rows. *)
Definition head (df : DataFrame) : DataFrame :=
  map (fun col => (fst col, firstn 5 (snd col))) df.

(** What the explorer finds outside: the file system and the three
    readers.  [dtype_of] is the type label the library gave a column. *)
Record World := {
  isdir : str -> bool;
  (** the names in a directory, or the message of the OSError *)
  listdir : str -> str + list str;
  read_csv : reader;
  read_xlsx : reader;
  read_sav : reader;
  dtype_of : Series -> str
}.

Inductive explore_line :=
| StartExploration (data_path : str)   (* --- Starting Data Exploration in ... --- *)
| ErrorNotDirectory (data_path : str)  (* Error: The directory '...' was not found. *)
| Rule                                 (* twenty-five equal signs *)
| AnalyzingFile (filename : str)       (* Analyzing file: ... *)
| SkippingUnsupported (filename : str) (* Skipping unsupported file type: ... *)
| InfoFirstRows                        (* [INFO] First 5 rows: *)
| PrintHead (rows : DataFrame)
| InfoColumnNames                      (* [INFO] Column names: *)
| PrintColumns (names : list str)
| InfoDataTypes                        (* [INFO] Data types: *)
| PrintDtypes (dtypes : list (str * str))
| ErrorCouldNotRead (filename : str)   (* [ERROR] Could not read or process file ... *)
| Reason (e : str)                     (*   Reason: ... *)
| ExplorationComplete.                 (* --- Data Exploration Complete --- *)

Inductive file_kind := Csv | Xlsx | Sav.

Section Explorer.
Variable U : UnicodeData.
Variable W : World.

(** The chain of tests on [filename.lower()]. *)
Definition kind_of (filename : str) : option file_kind :=
  if endswith (lower U filename) (py ".csv") then Some Csv
  else if endswith (lower U filename) (py ".xlsx") then Some Xlsx
  else if endswith (lower U filename) (py ".sav") then Some Sav
  else None.

Definition read_as (k : file_kind) : reader :=
  match k with
  | Csv => read_csv W
  | Xlsx => read_xlsx W
  | Sav => read_sav W
  end.

Definition dtypes (df : DataFrame) : list (str * str) :=
  map (fun col => (fst col, dtype_of W (snd col))) df.

(** The body of the loop of [explore_data]. *)
Definition explore_file (data_path filename : str)
  : Run explore_line str unit :=
  let filepath := path_join data_path filename in
  if isdir W filepath then run_ret tt
  else
    (run_print Rule ;;
     run_print (AnalyzingFile filename) ;;
     run_print Rule ;;
     match kind_of filename with
     | None => run_print (SkippingUnsupported filename)
     | Some k =>
         match read_as k filepath with
         | inr df =>
             run_print InfoFirstRows ;;
             run_print (PrintHead (head df)) ;;
             run_print InfoColumnNames ;;
             run_print (PrintColumns (columns df)) ;;
             run_print InfoDataTypes ;;
             run_print (PrintDtypes (dtypes df))
         | inl e =>
             run_print (ErrorCouldNotRead filename) ;;
             run_print (Reason (message_of e))
         end
     end)%run.

Fixpoint for_each_file (body : str -> Run explore_line str unit)
    (names : list str) : Run explore_line str unit :=
  match names with
  | [] => run_ret tt
  | n :: rest => (body n ;; for_each_file body rest)%run
  end.

Definition explore_data (data_path : str) : Run explore_line str unit :=
  (run_print (StartExploration data_path) ;;
   if negb (isdir W data_path) then
     run_print (ErrorNotDirectory data_path)
   else
     match listdir W data_path with
     | inl e => run_raise e
     | inr names =>
         let file_list := sorted names in
         for_each_file (explore_file data_path) file_list ;;
         run_print ExplorationComplete
     end)%run.
End Explorer.

(* ===================================================================== *)
(** * Vocabulary of the further statements *)
(* ===================================================================== *)

(** The lowercase of an ASCII character. *)
Definition ascii_lower (c : codepoint) : codepoint :=
  if is_upper_ascii c then c + 32 else c.

(** The tables of the real database on ASCII: only the capital letters
    have a lowercase mapping, nothing decomposes, nothing combines. *)
Definition ascii_tables (U : UnicodeData) : Prop :=
  (forall c, is_ascii c = true -> lower_full U c = [ascii_lower c])
  /\ (forall c, is_ascii c = true -> compat_decomposition U c = [c])
  /\ (forall c, is_ascii c = true -> combining U c = 0).

(** The columns of a frame under a label. *)
Definition labelled (label : str) (df : DataFrame) : DataFrame :=
  filter (fun col => str_eqb label (fst col)) df.

(** The frame under the cleaned labels. *)
Definition clean_frame (U : UnicodeData) (df : DataFrame) : DataFrame :=
  set_columns df (map (cleaned U) (columns df)).

(** The score is an integer. *)
Definition integral (v : number) : Prop :=
  match v with
  | Finite q => exists z : Z, (q == inject_Z z)%Q
  | _ => True
  end.

(** The names the explorer announces, in the order of the output. *)
Definition analyzed (out : list explore_line) : list str :=
  flat_map (fun l => match l with AnalyzingFile n => [n] | _ => [] end) out.

(** The extension each reader answers to. *)
Definition extension (k : file_kind) : str :=
  match k with
  | Csv => py ".csv"
  | Xlsx => py ".xlsx"
  | Sav => py ".sav"
  end.

(** The same frame under another listing function. *)
Definition relisted (W : World) (listing : str -> str + list str) : World :=
  Build_World (isdir W) listing (read_csv W) (read_xlsx W) (read_sav W)
    (dtype_of W).

(** A label is cleaned to [label] by at most one column of the frame. *)
Definition at_most_once (U : UnicodeData) (df : DataFrame) (label : str)
  : bool :=
  (List.length (labelled label (clean_frame U df)) <=? 1)%nat.

(** The file [main] asks for. *)
Definition main_file : str := py "/tmp/datos/datos/baseZona2024.xlsx".

(** A survey as a spreadsheet holds it: labels in capitals, one with an
    accent. *)
Definition raw_survey : DataFrame :=
  [(py "SEXO", survey_sexo);
   (py "Regi" ++ [0xF3] ++ py "n", [Some (Str (py "Sur")); None]);
   (py "NPS", survey_nps)].

(** A directory with two data files, one of them unreadable, a text file
    and a sub-directory. *)
Definition disk : World :=
  Build_World
    (fun p => str_eqb p (py "/data") || str_eqb p (py "/data/old"))
    (fun _ => inr [py "b.CSV"; py "old"; py "a.xlsx"; py "notes.txt"])
    (fun _ => inr survey)
    (fun _ => inl (OtherError (py "File is not a zip file")))
    (fun _ => inl (FileNotFoundError (py "no such file")))
    (fun _ => py "object").

(* ===================================================================== *)
(** * Properties of the output monad *)
(* ===================================================================== *)

Lemma bind_ret_l {A B} (a : A) (f : A -> Out B) : bind (ret a) f = f a.
Proof. unfold bind, ret. destruct (f a) as [o r]. reflexivity. Qed.

Lemma bind_raise {A B} (e : exn) (f : A -> Out B) : bind (raise e) f = raise e.
Proof. reflexivity. Qed.


Lemma bind_print {B} (l : line) (k : unit -> Out B) :
  bind (print l) k = (l :: fst (k tt), snd (k tt)).
Proof. unfold bind, print. destruct (k tt). reflexivity. Qed.

(* ===================================================================== *)
(** * Properties of the column-name cleaning *)
(* ===================================================================== *)

Lemma ascii_byte (c : codepoint) :
  is_ascii c = true -> exists b, Byte.of_N c = Some b /\ Byte.to_N b = c.
Proof.
  unfold is_ascii. intros H. apply N.ltb_lt in H.
  pose proof (Byte.to_of_N_option_map c) as M.
  destruct (Byte.of_N c) as [b |] eqn:E.
  - exists b. split; [reflexivity | now apply Byte.to_of_N].
  - simpl in M. destruct (N.leb_spec c 255); [discriminate | lia].
Qed.

(** Decoding what the ASCII encoder kept gives back the ASCII characters of
    the text, in their order: the decoder never fails on it. *)
Lemma decode_encode_ascii (s : str) :
  decode_utf8 (encode_ascii_ignore s) = Some (filter is_ascii s).
Proof.
  induction s as [| c s IH]; [reflexivity |].
  unfold encode_ascii_ignore in *. cbn [flat_map filter].
  destruct (is_ascii c) eqn:A; [| exact IH].
  destruct (ascii_byte c A) as (b & Hb & Hn). rewrite Hb.
  cbn [app decode_utf8]. rewrite Hn.
  unfold is_ascii in A. rewrite A, IH. reflexivity.
Qed.

Section CleaningFacts.
Variable U : UnicodeData.

Lemma clean_label_ret (name : str) : clean_label U name = ret (cleaned U name).
Proof. unfold clean_label. now rewrite decode_encode_ascii. Qed.

Lemma clean_labels_ret (names : list str) :
  clean_labels U names = ret (map (cleaned U) names).
Proof.
  induction names as [| n rest IH]; [reflexivity |].
  cbn [clean_labels map]. rewrite clean_label_ret, bind_ret_l, IH.
  now rewrite bind_ret_l.
Qed.

(** On a frame without columns the text accessor is refused, after the
    banner. *)
Lemma clean_column_names_no_columns :
  clean_column_names U [] = ([BannerCleaning], inl AttributeError).
Proof. reflexivity. Qed.

(** On a frame with columns the cleaning never raises: it prints its three
    lines and returns the frame under the cleaned labels. *)
Lemma clean_column_names_returns (df : DataFrame) :
  df <> [] ->
  clean_column_names U df =
  ([BannerCleaning; CleanedOk; CleanedExample],
   inr (set_columns df (map (cleaned U) (columns df)))).
Proof.
  intros N. unfold clean_column_names.
  destruct df as [| col df]; [congruence |].
  cbn [columns map str_accessor]. rewrite bind_print, bind_ret_l.
  change (cleaned_columns <- clean_labels U (fst col :: map fst df) ;;
          (let df0 := set_columns (col :: df) cleaned_columns in
           print CleanedOk ;; print CleanedExample ;; ret df0))%out
    with (cleaned_columns <- clean_labels U (columns (col :: df)) ;;
          (let df0 := set_columns (col :: df) cleaned_columns in
           print CleanedOk ;; print CleanedExample ;; ret df0))%out.
  rewrite clean_labels_ret, bind_ret_l. reflexivity.
Qed.

Lemma set_columns_columns (df : DataFrame) (labels : list str) :
  List.length labels = List.length df ->
  columns (set_columns df labels) = labels.
Proof.
  unfold columns, set_columns. revert labels.
  induction df as [| col df IH]; intros [| l labels] H;
    try reflexivity; try discriminate.
  cbn. f_equal. apply IH. now injection H.
Qed.

Lemma set_columns_data (df : DataFrame) (labels : list str) :
  List.length labels = List.length df ->
  map snd (set_columns df labels) = map snd df.
Proof.
  unfold set_columns. revert labels.
  induction df as [| col df IH]; intros [| l labels] H;
    try reflexivity; try discriminate.
  cbn. f_equal. apply IH. now injection H.
Qed.

(** Same number of labels, each the cleaning of the label at its
    position, over the same data. *)
Lemma clean_column_names_labels (df : DataFrame) :
  df <> [] ->
  exists df',
    snd (clean_column_names U df) = inr df'
    /\ columns df' = map (cleaned U) (columns df)
    /\ List.length (columns df') = List.length (columns df)
    /\ map snd df' = map snd df.
Proof.
  intros N. rewrite clean_column_names_returns by exact N.
  eexists. split; [reflexivity |].
  assert (L : List.length (map (cleaned U) (columns df)) = List.length df)
    by (unfold columns; now rewrite !length_map).
  rewrite set_columns_columns, set_columns_data by exact L.
  repeat split. now rewrite length_map.
Qed.

(** Every cleaned label is ASCII only. *)
Lemma cleaned_ascii_only (name : str) : ascii_only (cleaned U name) = true.
Proof.
  unfold ascii_only, cleaned. apply forallb_forall.
  intros c Hc. now apply filter_In in Hc.
Qed.

(** On ASCII the tables of the real database are trivial: only the
    capital letters have a lowercase mapping, nothing decomposes, nothing
    is a combining mark. *)
Hypothesis lower_ascii : forall c,
  is_ascii c = true -> is_upper_ascii c = false -> lower_full U c = [c].
Hypothesis decomposition_ascii : forall c,
  is_ascii c = true -> compat_decomposition U c = [c].
Hypothesis combining_ascii : forall c,
  is_ascii c = true -> combining U c = 0.

Lemma do_lower_fixed (s before : str) :
  ascii_only s = true -> no_upper_ascii s = true -> do_lower U before s = s.
Proof.
  revert before. induction s as [| c s IH]; intros before A L;
    [reflexivity |].
  cbn in A, L. apply andb_true_iff in A as [Ac A], L as [Lc L].
  apply negb_true_iff in Lc. cbn [do_lower].
  replace (c =? 0x3A3) with false.
  - rewrite (lower_ascii c Ac Lc), (IH _ A L). reflexivity.
  - symmetry. apply N.eqb_neq. unfold is_ascii in Ac.
    apply N.ltb_lt in Ac. lia.
Qed.

Lemma decomposition_fixed (s : str) :
  ascii_only s = true -> flat_map (compat_decomposition U) s = s.
Proof.
  induction s as [| c s IH]; intros A; [reflexivity |].
  cbn in A. apply andb_true_iff in A as [Ac A].
  cbn [flat_map]. now rewrite (decomposition_ascii c Ac), (IH A).
Qed.

Lemma canonical_insert_starter (c : codepoint) (out : str) :
  combining U c = 0 -> canonical_insert U c out = c :: out.
Proof. intros H. destruct out; cbn; [reflexivity |]. now rewrite H. Qed.

Lemma canonical_order_fixed (s : str) :
  ascii_only s = true -> canonical_order U s = s.
Proof.
  unfold canonical_order. intros A.
  assert (G : forall out,
    fold_left (fun out c => canonical_insert U c out) s out = rev s ++ out).
  { induction s as [| c s IH]; intros out; [reflexivity |].
    cbn in A. apply andb_true_iff in A as [Ac A]. cbn [fold_left rev].
    rewrite canonical_insert_starter by now apply combining_ascii.
    rewrite (IH A), <- app_assoc. reflexivity. }
  rewrite G, app_nil_r. apply rev_involutive.
Qed.

Lemma filter_ascii_fixed (s : str) :
  ascii_only s = true -> filter is_ascii s = s.
Proof.
  induction s as [| c s IH]; intros A; [reflexivity |].
  cbn in A. apply andb_true_iff in A as [Ac A].
  cbn [filter]. now rewrite Ac, (IH A).
Qed.

(** A label that is already ASCII without capitals is left as it is. *)
Lemma cleaned_fixed (s : str) :
  ascii_only s = true -> no_upper_ascii s = true -> cleaned U s = s.
Proof.
  intros A L. unfold cleaned, lower, normalize_NFKD.
  rewrite (do_lower_fixed s [] A L), (decomposition_fixed s A),
    (canonical_order_fixed s A). now apply filter_ascii_fixed.
Qed.

(** Cleaning a second time changes a label only if the first cleaning
    left a capital letter in it. *)
Lemma cleaned_twice (s : str) :
  no_upper_ascii (cleaned U s) = true ->
  cleaned U (cleaned U s) = cleaned U s.
Proof. intros L. apply cleaned_fixed; [apply cleaned_ascii_only | exact L]. Qed.
End CleaningFacts.

(** With the tables of the real database the cleaning of the usual names
    is as expected. *)
Example cleaned_spanish_names :
  map (cleaned Excerpt.ucd)
      [py "IDBASE"; py "A" ++ [0xD1] ++ py "O"; py "Regi" ++ [0xF3] ++ py "n";
       py "N" ++ [0xBA] ++ py " Hogar"]
  = [py "idbase"; py "ano"; py "region"; py "no hogar"].
Proof. reflexivity. Qed.

Example branded_in_excerpt :
  forallb (forallb Excerpt.in_excerpt) (columns branded) = true.
Proof. reflexivity. Qed.

(** C3, at the failing input: the label MARCA followed by the trade mark
    sign U+2122.  [lower] leaves the sign alone, NFKD then decomposes it
    into the capital letters T and M, so the cleaned label, marcaTM, is
    ASCII but not lowercase.  The frame keeps its one column. *)
Theorem clean_column_names_leaves_capitals :
  clean_column_names Excerpt.ucd branded
  = ([BannerCleaning; CleanedOk; CleanedExample], inr [(py "marcaTM", [])])
  /\ ascii_only (py "marcaTM") = true
  /\ no_upper_ascii (py "marcaTM") = false.
Proof. repeat split; reflexivity. Qed.

(** C10, at the same input: cleaning once gives marcaTM, cleaning the
    result again gives marcatm, so the second pass changes the label. *)
Theorem clean_column_names_twice_differs :
  result (clean_column_names Excerpt.ucd branded)
  = inr [(py "marcaTM", [])]
  /\ result (df <- clean_column_names Excerpt.ucd branded ;;
             clean_column_names Excerpt.ucd df)%out
     = inr [(py "marcatm", [])]
  /\ py "marcatm" <> py "marcaTM".
Proof. repeat split; try reflexivity. discriminate. Qed.

(* ===================================================================== *)
(** * Properties of column selection *)
(* ===================================================================== *)

Lemma getitem_has_column (df : DataFrame) (label : str) (sel : selection) :
  getitem df label = ret sel -> has_column label df = true.
Proof.
  unfold getitem, has_column, columns. intros H.
  destruct (filter (fun col => str_eqb label (fst col)) df) as [| c l] eqn:F;
    [discriminate |].
  assert (I : In c (filter (fun col => str_eqb label (fst col)) df))
    by (rewrite F; now left).
  apply filter_In in I as [I E].
  apply existsb_exists. exists (fst c). split; [now apply in_map | exact E].
Qed.

Lemma has_column_false_filter (df : DataFrame) (label : str) :
  has_column label df = false ->
  filter (fun col => str_eqb label (fst col)) df = [].
Proof.
  unfold has_column, columns. induction df as [| c df IH]; [reflexivity |].
  cbn. intros H. apply orb_false_iff in H as [E H].
  rewrite E. now apply IH.
Qed.

(* ===================================================================== *)
(** * Properties of the Net Promoter Score *)
(* ===================================================================== *)

Section NpsFacts.
Variable parse_number : str -> option number.

(** The run on a frame whose ['nps'] label names one column. *)
Lemma calculate_nps_series (df : DataFrame) (col : Series) :
  getitem df (py "nps") = ret (OneSeries col) ->
  calculate_nps parse_number df =
  match scores_of parse_number col with
  | [] => ([BannerNps; InfoNoValidNps], inr tt)
  | _ :: _ => (report (scores_of parse_number col), inr tt)
  end.
Proof.
  intros G. unfold calculate_nps.
  rewrite bind_print, (getitem_has_column _ _ _ G). cbn [negb].
  rewrite G, bind_ret_l. cbn [to_numeric]. rewrite bind_ret_l.
  fold (scores_of parse_number col).
  destruct (scores_of parse_number col) as [| x scores]; reflexivity.
Qed.

Lemma calculate_nps_no_column (df : DataFrame) :
  has_column (py "nps") df = false ->
  calculate_nps parse_number df = ([BannerNps; WarnNpsNotFound], inr tt).
Proof. intros H. unfold calculate_nps. now rewrite bind_print, H. Qed.

Lemma calculate_nps_frame (df : DataFrame) (cols : list Series) :
  getitem df (py "nps") = ret (SubFrame cols) ->
  calculate_nps parse_number df = ([BannerNps], inl TypeError).
Proof.
  intros G. unfold calculate_nps.
  rewrite bind_print, (getitem_has_column _ _ _ G). cbn [negb].
  rewrite G, bind_ret_l. reflexivity.
Qed.

(** ** The bands *)

Lemma series_sum_cons (b : bool) (mask : list bool) :
  series_sum (b :: mask) = ((if b then 1 else 0) + series_sum mask)%nat.
Proof. unfold series_sum. cbn. destruct b; reflexivity. Qed.

Lemma series_sum_app (m1 m2 : list bool) :
  series_sum (m1 ++ m2) = (series_sum m1 + series_sum m2)%nat.
Proof. unfold series_sum. apply count_occ_app. Qed.

Lemma series_sum_le_length (mask : list bool) :
  (series_sum mask <= List.length mask)%nat.
Proof. unfold series_sum. apply count_occ_bound. Qed.

Lemma promoters_of_mask (scores : list number) :
  promoters_of scores = series_sum (map is_promoter scores).
Proof. reflexivity. Qed.

Lemma passives_of_mask (scores : list number) :
  passives_of scores = series_sum (map is_passive scores).
Proof. reflexivity. Qed.

Lemma detractors_of_mask (scores : list number) :
  detractors_of scores = series_sum (map is_detractor scores).
Proof. reflexivity. Qed.

Lemma promoters_le_total (scores : list number) :
  (promoters_of scores <= List.length scores)%nat.
Proof.
  rewrite promoters_of_mask.
  rewrite <- (length_map is_promoter scores). apply series_sum_le_length.
Qed.

Lemma detractors_le_total (scores : list number) :
  (detractors_of scores <= List.length scores)%nat.
Proof.
  rewrite detractors_of_mask.
  rewrite <- (length_map is_detractor scores). apply series_sum_le_length.
Qed.
End NpsFacts.

(** The three counts are the respondents that lie in a band. *)
Lemma band_counts (scores : list number) :
  (detractors_of scores + passives_of scores + promoters_of scores
   = List.length (flat_map bands scores))%nat.
Proof.
  unfold detractors_of, passives_of, promoters_of, series_le, series_between,
    series_ge.
  induction scores as [| v scores IH]; [reflexivity |].
  cbn [map flat_map]. rewrite !series_sum_cons, length_app, <- IH.
  unfold bands, is_detractor, is_passive, is_promoter.
  destruct (number_leb v (Finite 6)),
    (number_leb (Finite 7) v && number_leb v (Finite 8)),
    (number_leb (Finite 9) v); cbn; lia.
Qed.

Ltac qle_cases :=
  repeat match goal with
         | |- context [Qle_bool ?a ?b] =>
             let E := fresh "E" in
             destruct (Qle_bool a b) eqn:E;
             [apply Qle_bool_iff in E
             | apply not_true_iff_false in E; rewrite Qle_bool_iff in E;
               apply Qnot_le_lt in E]
         end.

Lemma bands_at_most_one (v : number) : (List.length (bands v) <= 1)%nat.
Proof.
  destruct v as [| q |]; [cbn; lia | | cbn; lia].
  unfold bands, is_detractor, is_passive, is_promoter, number_leb.
  qle_cases; cbn; try lia; exfalso; lra.
Qed.

Lemma bands_integer (z : Z) :
  bands (Finite (inject_Z z)) =
  [if (z <=? 6)%Z then Detractor
   else if (z <=? 8)%Z then Passive else Promoter].
Proof.
  unfold bands, is_detractor, is_passive, is_promoter, number_leb.
  change 6%Q with (inject_Z 6). change 7%Q with (inject_Z 7).
  change 8%Q with (inject_Z 8). change 9%Q with (inject_Z 9).
  qle_cases;
    repeat match goal with
           | H : (inject_Z _ <= inject_Z _)%Q |- _ => rewrite <- Zle_Qle in H
           | H : (inject_Z _ < inject_Z _)%Q |- _ => rewrite <- Zlt_Qlt in H
           end;
    destruct (Z.leb_spec z 6); destruct (Z.leb_spec z 8);
    cbn; try reflexivity; exfalso; lia.
Qed.

Lemma bands_gap (q : Q) :
  bands (Finite q) = [] <-> (6 < q /\ q < 7)%Q \/ (8 < q /\ q < 9)%Q.
Proof.
  unfold bands, is_detractor, is_passive, is_promoter, number_leb.
  qle_cases; cbn; split; intros H; try discriminate;
    try (exfalso; lra); try reflexivity; try lra.
Qed.

(** No respondent is counted twice: the three counts add up to at most the
    total, and to less when a score lies between two bands. *)
Lemma band_counts_le_total (scores : list number) :
  (detractors_of scores + passives_of scores + promoters_of scores
   <= List.length scores)%nat.
Proof.
  rewrite band_counts. induction scores as [| v scores IH]; [cbn; lia |].
  cbn [flat_map List.length]. rewrite length_app.
  pose proof (bands_at_most_one v). lia.
Qed.

(** C1, as the code has it: the three bands are pairwise disjoint on every
    numeric value, every integer score lies in exactly one of them
    (Detractor up to 6, Passive for 7 and 8, Promoter from 9), and the
    values that lie in no band are those strictly between 6 and 7 or
    strictly between 8 and 9. *)
Theorem bands_partition_integers :
  (forall v : number, (List.length (bands v) <= 1)%nat)
  /\ (forall z : Z,
        bands (Finite (inject_Z z)) =
        [if (z <=? 6)%Z then Detractor
         else if (z <=? 8)%Z then Passive else Promoter])
  /\ (forall q : Q,
        bands (Finite q) = [] <-> (6 < q /\ q < 7)%Q \/ (8 < q /\ q < 9)%Q).
Proof.
  split; [exact bands_at_most_one |].
  split; [exact bands_integer | exact bands_gap].
Qed.

(** C1 fails as stated: 6.5 lies in the interval from 0 to 10 and in none
    of the three bands; in a column it is a respondent counted in no band. *)
Lemma bands_miss_six_and_a_half :
  ~ (forall v : number, in_0_10 v = true -> exists b, bands v = [b]).
Proof.
  intros H. destruct (H (Finite (13 # 2)) eq_refl) as [b Hb]. discriminate Hb.
Qed.

(** ** The score *)

Lemma Qnat_nonneg (n : nat) : (0 <= Qnat n)%Q.
Proof.
  unfold Qnat. change 0%Q with (inject_Z 0). rewrite <- Zle_Qle. lia.
Qed.

Lemma Qnat_le (n m : nat) : (n <= m)%nat -> (Qnat n <= Qnat m)%Q.
Proof. intros H. unfold Qnat. rewrite <- Zle_Qle. lia. Qed.

Lemma Qnat_pos (n : nat) : (0 < n)%nat -> (0 < Qnat n)%Q.
Proof.
  intros H. unfold Qnat. change 0%Q with (inject_Z 0). rewrite <- Zlt_Qlt. lia.
Qed.

(** A share of the respondents is a percentage between 0 and 100. *)
Lemma percentage_range (count total_respondents : nat) :
  (count <= total_respondents)%nat -> (0 < total_respondents)%nat ->
  (0 <= percentage count total_respondents
   /\ percentage count total_respondents <= 100)%Q.
Proof.
  intros L P. unfold percentage.
  pose proof (Qnat_nonneg count) as C0.
  pose proof (Qnat_le _ _ L) as CT.
  pose proof (Qnat_pos _ P) as T0.
  assert (D0 : (0 <= Qnat count / Qnat total_respondents)%Q)
    by (apply Qle_shift_div_l; [exact T0 | lra]).
  assert (D1 : (Qnat count / Qnat total_respondents <= 1)%Q)
    by (apply Qle_shift_div_r; [exact T0 | lra]).
  split; lra.
Qed.

Lemma nps_score_formula (scores : list number) :
  (nps_score scores ==
   100 * (Qnat (promoters_of scores) / Qnat (List.length scores))
   - 100 * (Qnat (detractors_of scores) / Qnat (List.length scores)))%Q.
Proof. unfold nps_score, percentage. ring. Qed.

Lemma nps_score_range (scores : list number) :
  (0 < List.length scores)%nat ->
  (-100 <= nps_score scores /\ nps_score scores <= 100)%Q.
Proof.
  intros P. unfold nps_score.
  destruct (percentage_range _ _ (promoters_le_total scores) P).
  destruct (percentage_range _ _ (detractors_le_total scores) P).
  split; lra.
Qed.

Section NpsClaims.
Variable parse_number : str -> option number.

(** C2: when the field holds at least one value that coerces to a number,
    the run reaches the score, the score is 100 x (promoters / T) minus
    100 x (detractors / T), and it lies between -100 and 100. *)
Theorem calculate_nps_score (df : DataFrame) (col : Series) :
  getitem df (py "nps") = ret (OneSeries col) ->
  (0 < List.length (scores_of parse_number col))%nat ->
  let scores := scores_of parse_number col in
  let t := List.length scores in
  calculate_nps parse_number df = (report scores, inr tt)
  /\ In (FinalNps (nps_score scores)) (printed (calculate_nps parse_number df))
  /\ (nps_score scores ==
      100 * (Qnat (promoters_of scores) / Qnat t)
      - 100 * (Qnat (detractors_of scores) / Qnat t))%Q
  /\ (-100 <= nps_score scores /\ nps_score scores <= 100)%Q.
Proof.
  intros G P. cbv zeta.
  remember (scores_of parse_number col) as scores eqn:S.
  assert (R : calculate_nps parse_number df = (report scores, inr tt)).
  { rewrite (calculate_nps_series _ _ _ G), <- S.
    destruct scores; [cbn in P; lia | reflexivity]. }
  split; [exact R |]. split.
  - rewrite R. unfold printed, report. cbn. tauto.
  - split; [apply nps_score_formula | now apply nps_score_range].
Qed.

(** C6: when no value of the field coerces to a number, the run prints
    the banner and the no-data notice and returns: no score line, and no
    division by zero. *)
Theorem calculate_nps_no_data (df : DataFrame) (col : Series) :
  getitem df (py "nps") = ret (OneSeries col) ->
  List.length (scores_of parse_number col) = 0%nat ->
  calculate_nps parse_number df = ([BannerNps; InfoNoValidNps], inr tt)
  /\ (forall s, ~ In (FinalNps s) (printed (calculate_nps parse_number df)))
  /\ result (calculate_nps parse_number df) <> inl ZeroDivisionError.
Proof.
  intros G T.
  assert (R : calculate_nps parse_number df
              = ([BannerNps; InfoNoValidNps], inr tt)).
  { rewrite (calculate_nps_series _ _ _ G).
    destruct (scores_of parse_number col); [reflexivity | discriminate]. }
  rewrite R. split; [reflexivity |]. split.
  - intros s [H | [H | []]]; discriminate.
  - discriminate.
Qed.

(** No run of [calculate_nps] divides by zero. *)
Lemma calculate_nps_never_divides_by_zero (df : DataFrame) :
  result (calculate_nps parse_number df) <> inl ZeroDivisionError.
Proof.
  destruct (has_column (py "nps") df) eqn:H.
  - destruct (getitem df (py "nps")) as [o [e | [col | cols]]] eqn:G.
    + unfold getitem in G.
      destruct (filter _ df) as [| c [| c' l]] eqn:F; try discriminate.
      unfold has_column, columns in H. apply existsb_exists in H.
      destruct H as (x & I & E). apply in_map_iff in I as (c & <- & I).
      assert (In c (filter (fun col => str_eqb (py "nps") (fst col)) df))
        by (apply filter_In; now split).
      rewrite F in *. contradiction.
    + assert (o = []) as ->
        by (unfold getitem in G; destruct (filter _ df) as [| ? [| ? ?]];
            now inversion G).
      rewrite (calculate_nps_series _ _ _ G).
      destruct (scores_of parse_number col); discriminate.
    + assert (o = []) as ->
        by (unfold getitem in G; destruct (filter _ df) as [| ? [| ? ?]];
            now inversion G).
      rewrite (calculate_nps_frame _ _ _ G). discriminate.
  - rewrite (calculate_nps_no_column _ _ H). discriminate.
Qed.

(** ** Which cells count *)

Lemma scores_of_app (a b : Series) :
  scores_of parse_number (a ++ b)
  = scores_of parse_number a ++ scores_of parse_number b.
Proof. unfold scores_of, dropna. now rewrite map_app, flat_map_app. Qed.

Lemma scores_of_cons (c : cell) (l : Series) :
  scores_of parse_number (c :: l)
  = match coerce parse_number c with
    | Some v => v :: scores_of parse_number l
    | None => scores_of parse_number l
    end.
Proof.
  unfold scores_of, dropna. cbn [map flat_map].
  now destruct (coerce parse_number c).
Qed.

Lemma scores_of_insert (pre post : Series) (c : cell) :
  scores_of parse_number (pre ++ c :: post)
  = scores_of parse_number pre
    ++ match coerce parse_number c with Some v => [v] | None => [] end
    ++ scores_of parse_number post.
Proof.
  rewrite scores_of_app, scores_of_cons.
  now destruct (coerce parse_number c).
Qed.

(** C7: a cell that does not coerce to a number is left out without an
    error and without a trace: the run on the field is the run on the
    field without that cell, so the cell is in no band count, not in the
    total, and no line reports it. *)
Theorem calculate_nps_skips_non_numeric
    (df df' : DataFrame) (pre post : Series) (c : cell) :
  getitem df (py "nps") = ret (OneSeries (pre ++ c :: post)) ->
  getitem df' (py "nps") = ret (OneSeries (pre ++ post)) ->
  coerce parse_number c = None ->
  scores_of parse_number (pre ++ c :: post)
  = scores_of parse_number (pre ++ post)
  /\ calculate_nps parse_number df = calculate_nps parse_number df'
  /\ result (calculate_nps parse_number df) = inr tt.
Proof.
  intros G G' N.
  assert (S : scores_of parse_number (pre ++ c :: post)
              = scores_of parse_number (pre ++ post))
    by (rewrite scores_of_insert, N, scores_of_app; reflexivity).
  split; [exact S |].
  rewrite (calculate_nps_series _ _ _ G), (calculate_nps_series _ _ _ G'), S.
  split; [reflexivity |].
  now destruct (scores_of parse_number (pre ++ post)).
Qed.

Lemma band_count_insert (f : number -> bool) (a b : list number) (v : number) :
  series_sum (map f (a ++ v :: b))
  = ((if f v then 1 else 0) + series_sum (map f (a ++ b)))%nat.
Proof.
  rewrite !map_app. cbn [map].
  rewrite !series_sum_app, series_sum_cons. lia.
Qed.

Lemma detractor_only (v : number) :
  is_detractor v = true -> is_passive v = false /\ is_promoter v = false.
Proof.
  destruct v as [| q |]; [now cbn | | discriminate].
  unfold is_detractor, is_passive, is_promoter, number_leb.
  intros D. apply Qle_bool_iff in D.
  qle_cases; cbn; split; try reflexivity; exfalso; lra.
Qed.

Lemma promoter_only (v : number) :
  is_promoter v = true -> is_passive v = false /\ is_detractor v = false.
Proof.
  destruct v as [| q |]; [discriminate | | now cbn].
  unfold is_detractor, is_passive, is_promoter, number_leb.
  intros D. apply Qle_bool_iff in D.
  qle_cases; cbn; split; try reflexivity; exfalso; lra.
Qed.

(** C4: a value of the field that coerces to a number is a respondent
    whatever its size.  If it is at most 6 (a negative number, or minus
    infinity) it adds one to the detractors and to the total and nothing
    to the other bands; if it is at least 9 (a number above 10, or plus
    infinity) it adds one to the promoters and to the total. *)
Theorem calculate_nps_counts_any_value
    (df : DataFrame) (pre post : Series) (c : cell) (v : number) :
  getitem df (py "nps") = ret (OneSeries (pre ++ c :: post)) ->
  coerce parse_number c = Some v ->
  let scores := scores_of parse_number (pre ++ c :: post) in
  let others := scores_of parse_number (pre ++ post) in
  calculate_nps parse_number df = (report scores, inr tt)
  /\ List.length scores = S (List.length others)
  /\ (number_leb v (Finite 6) = true ->
      detractors_of scores = S (detractors_of others)
      /\ passives_of scores = passives_of others
      /\ promoters_of scores = promoters_of others)
  /\ (number_leb (Finite 9) v = true ->
      promoters_of scores = S (promoters_of others)
      /\ passives_of scores = passives_of others
      /\ detractors_of scores = detractors_of others).
Proof.
  intros G C. cbv zeta.
  assert (S : scores_of parse_number (pre ++ c :: post)
              = scores_of parse_number pre ++ v :: scores_of parse_number post)
    by (rewrite scores_of_insert, C; reflexivity).
  rewrite (calculate_nps_series _ _ _ G), S, scores_of_app.
  rewrite promoters_of_mask, passives_of_mask, detractors_of_mask.
  rewrite !band_count_insert.
  split; [now destruct (scores_of parse_number pre) |].
  split; [rewrite !length_app; cbn; lia |].
  split; intros B.
  - destruct (detractor_only v B) as [Pa Pr].
    fold (is_detractor v) in B. rewrite B, Pa, Pr. now cbn.
  - destruct (promoter_only v B) as [Pa De].
    fold (is_promoter v) in B. rewrite B, Pa, De. now cbn.
Qed.

(** C5: on the scores 9, 9, 7, 3, 0 the run reports 5 respondents,
    2 promoters, 1 passive, 2 detractors, both percentages 100 x (2/5),
    and the score 0. *)
Theorem calculate_nps_sample :
  exists p q d s,
    calculate_nps parse_number
      [(py "nps",
        map (fun z => Some (Num (Finite (inject_Z z)))) [9; 9; 7; 3; 0]%Z)]
    = ([BannerNps; TotalRespondents 5; Promoters 2 p; Passives 1 q;
        Detractors 2 d; FinalNps s], inr tt)
    /\ (p == 100 * (2 / 5) /\ d == 100 * (2 / 5)
        /\ s == 100 * (2 / 5) - 100 * (2 / 5) /\ s == 0)%Q.
Proof.
  do 4 eexists. split; [reflexivity |].
  repeat split; vm_compute; reflexivity.
Qed.
End NpsClaims.

(** ** The claims on the survey frame *)

Example survey_scores :
  scores_of parse_integer survey_nps
  = [Finite 10; Finite (inject_Z 8); Finite 3; Finite (inject_Z (-2)); Finite 9].
Proof. reflexivity. Qed.

Lemma calculate_nps_score_witness :
  getitem survey (py "nps") = ret (OneSeries survey_nps)
  /\ (0 < List.length (scores_of parse_integer survey_nps))%nat
  /\ calculate_nps parse_integer survey
     = (report (scores_of parse_integer survey_nps), inr tt)
  /\ (-100 <= nps_score (scores_of parse_integer survey_nps)
      /\ nps_score (scores_of parse_integer survey_nps) <= 100)%Q.
Proof.
  assert (G : getitem survey (py "nps") = ret (OneSeries survey_nps))
    by reflexivity.
  assert (P : (0 < List.length (scores_of parse_integer survey_nps))%nat)
    by (vm_compute; lia).
  split; [exact G |]. split; [exact P |].
  destruct (calculate_nps_score parse_integer survey survey_nps G P)
    as (R & _ & _ & B).
  split; [exact R | exact B].
Defined.

Lemma calculate_nps_no_data_witness :
  getitem survey_without_scores (py "nps")
  = ret (OneSeries [None; Some (Str (py "n/a")); Some (Str (py "")); None])
  /\ calculate_nps parse_integer survey_without_scores
     = ([BannerNps; InfoNoValidNps], inr tt).
Proof.
  split; [reflexivity |].
  apply (calculate_nps_no_data parse_integer survey_without_scores
           [None; Some (Str (py "n/a")); Some (Str (py "")); None]);
    reflexivity.
Defined.

Lemma calculate_nps_skips_non_numeric_witness :
  coerce parse_integer (Some (Str (py "n/a"))) = None
  /\ calculate_nps parse_integer survey
     = calculate_nps parse_integer
         [(py "nps",
           [Some (Num (Finite 10)); Some (Str (py "8")); None;
            Some (Num (Finite 3)); Some (Str (py "-2"));
            Some (Num (Finite 9))])].
Proof.
  split; [reflexivity |].
  apply (calculate_nps_skips_non_numeric parse_integer survey
           [(py "nps",
             [Some (Num (Finite 10)); Some (Str (py "8")); None;
              Some (Num (Finite 3)); Some (Str (py "-2"));
              Some (Num (Finite 9))])]
           [Some (Num (Finite 10)); Some (Str (py "8")); None]
           [Some (Num (Finite 3)); Some (Str (py "-2"));
            Some (Num (Finite 9))]
           (Some (Str (py "n/a"))));
    reflexivity.
Defined.

(** The score -2, outside the scale, is a detractor among the respondents. *)
Lemma calculate_nps_counts_any_value_witness :
  coerce parse_integer (Some (Str (py "-2"))) = Some (Finite (inject_Z (-2)))
  /\ List.length (scores_of parse_integer survey_nps) = 5%nat
  /\ detractors_of (scores_of parse_integer survey_nps)
     = S (detractors_of
            (scores_of parse_integer
               ([Some (Num (Finite 10)); Some (Str (py "8")); None;
                 Some (Str (py "n/a")); Some (Num (Finite 3))]
                ++ [Some (Num (Finite 9))]))).
Proof.
  split; [reflexivity |]. split; [reflexivity |].
  apply (calculate_nps_counts_any_value parse_integer survey
           [Some (Num (Finite 10)); Some (Str (py "8")); None;
            Some (Str (py "n/a")); Some (Num (Finite 3))]
           [Some (Num (Finite 9))]
           (Some (Str (py "-2"))) (Finite (inject_Z (-2))));
    reflexivity.
Defined.

(** The figures of section 8 of the specification. *)
Example nps_all_tens :
  (nps_score [Finite 10; Finite 10; Finite 10] == 100)%Q.
Proof. reflexivity. Qed.

Example nps_all_zeros :
  (nps_score [Finite 0; Finite 0] == -100)%Q.
Proof. reflexivity. Qed.

Example nps_all_passive :
  (nps_score [Finite 7; Finite 8; Finite 7] == 0)%Q.
Proof. reflexivity. Qed.

(** A score between two bands is a respondent in none of them. *)
Example nps_six_and_a_half :
  calculate_nps parse_integer [(py "nps", [Some (Num (Finite (13 # 2)))])]
  = ([BannerNps; TotalRespondents 1; Promoters 0 (percentage 0 1);
      Passives 0 (percentage 0 1); Detractors 0 (percentage 0 1);
      FinalNps (percentage 0 1 - percentage 0 1)], inr tt).
Proof. reflexivity. Qed.

(* ===================================================================== *)
(** * Properties of the demographic analysis *)
(* ===================================================================== *)



Lemma analyze_var_absent (df : DataFrame) (var : str) :
  has_column var df = false ->
  analyze_var df var = print (WarnColumnNotFound var).
Proof. intros H. unfold analyze_var. now rewrite H. Qed.

Lemma analyze_var_series (df : DataFrame) (var : str) (col : Series) :
  getitem df var = ret (OneSeries col) ->
  analyze_var df var
  = ([InfoAnalysis var; Tabulation (tabulation col)], inr tt).
Proof.
  intros G. unfold analyze_var.
  rewrite (getitem_has_column _ _ _ G), bind_print, G, bind_ret_l.
  reflexivity.
Qed.



(** On the survey frame the one field present is tabulated and the two
    others are reported missing, in the order of the list. *)
Example analyze_demographics_survey :
  analyze_demographics survey
  = ([BannerDemographics;
      InfoAnalysis (py "sexo");
      Tabulation (tabulation survey_sexo);
      WarnColumnNotFound (py "edad_tramo");
      WarnColumnNotFound (py "depto")], inr tt).
Proof. reflexivity. Qed.

(** ** Equality of values *)

Lemma str_eqb_eq (a b : str) : str_eqb a b = true <-> a = b.
Proof.
  revert b. induction a as [| x a IH]; intros [| y b]; cbn;
    try (split; [reflexivity || discriminate | reflexivity || discriminate]).
  rewrite andb_true_iff, N.eqb_eq, IH. split.
  - now intros [-> ->].
  - intros E. now inversion E.
Qed.

Lemma value_eqb_refl (a : value) : value_eqb a a = true.
Proof.
  destruct a as [[| q |] | s]; cbn; try reflexivity.
  - apply Qeq_bool_refl.
  - now apply str_eqb_eq.
Qed.

Lemma value_eqb_sym (a b : value) :
  value_eqb a b = true -> value_eqb b a = true.
Proof.
  destruct a as [[| p |] | s], b as [[| q |] | t]; cbn;
    try reflexivity; try discriminate.
  - apply Qeq_bool_sym.
  - rewrite !str_eqb_eq. congruence.
Qed.

Lemma value_eqb_trans (a b c : value) :
  value_eqb a b = true -> value_eqb b c = true -> value_eqb a c = true.
Proof.
  destruct a as [[| p |] | s], b as [[| q |] | t], c as [[| r |] | u]; cbn;
    try reflexivity; try discriminate.
  - apply Qeq_bool_trans.
  - rewrite !str_eqb_eq. congruence.
Qed.

(** Equal values are equal to the same values. *)
Lemma value_eqb_congr (a b c : value) :
  value_eqb a b = true -> value_eqb a c = value_eqb b c.
Proof.
  intros E. destruct (value_eqb b c) eqn:B.
  - now apply value_eqb_trans with b.
  - destruct (value_eqb a c) eqn:A; [| reflexivity].
    rewrite <- B. symmetry.
    apply value_eqb_trans with a; [now apply value_eqb_sym | exact A].
Qed.

(** ** Counting *)

Lemma occurrences_snoc (w v : value) (vs : list value) :
  occurrences w (vs ++ [v])
  = (occurrences w vs + if value_eqb w v then 1 else 0)%nat.
Proof.
  unfold occurrences. rewrite filter_app, length_app. cbn [filter].
  now destruct (value_eqb w v).
Qed.

Lemma occurrences_none (w : value) (vs : list value) :
  (forall v, In v vs -> value_eqb w v = false) -> occurrences w vs = 0%nat.
Proof.
  unfold occurrences. induction vs as [| v vs IH]; intros H; [reflexivity |].
  cbn [filter]. rewrite (H v) by now left.
  apply IH. intros u I. apply H. now right.
Qed.

Lemma tally_keys (v : value) (counts : list (value * nat)) (e : value * nat) :
  In e (tally v counts) ->
  (exists e', In e' counts /\ fst e' = fst e) \/ e = (v, 1%nat).
Proof.
  induction counts as [| [w n] rest IH]; cbn [tally].
  - intros [<- | []]. now right.
  - destruct (value_eqb w v).
    + intros [<- | I]; left.
      * exists (w, n). split; [now left | reflexivity].
      * exists e. split; [now right | reflexivity].
    + intros [<- | I].
      * left. exists (w, n). split; [now left | reflexivity].
      * destruct (IH I) as [(e' & I' & E) | ->]; [left | now right].
        exists e'. split; [now right | exact E].
Qed.

Lemma tally_counts_of (v : value) (counts : list (value * nat))
    (vs : list value) :
  distinct_keys counts ->
  (forall w n, In (w, n) counts -> n = occurrences w vs) ->
  occurrences v vs = 0%nat
  \/ (exists e, In e counts /\ value_eqb (fst e) v = true) ->
  distinct_keys (tally v counts)
  /\ (forall w n, In (w, n) (tally v counts) -> n = occurrences w (vs ++ [v]))
  /\ exists e, In e (tally v counts) /\ value_eqb (fst e) v = true.
Proof.
  induction counts as [| [w n] rest IH]; intros D C Z.
  - cbn [tally]. split; [cbn; tauto |]. split.
    + intros w n [E | []]. inversion E; subst w n.
      rewrite occurrences_snoc, value_eqb_refl.
      destruct Z as [Z | (e & [] & _)]. rewrite Z. reflexivity.
    + exists (v, 1%nat). split; [now left | apply value_eqb_refl].
  - cbn [tally]. destruct D as [D1 D2]. destruct (value_eqb w v) eqn:E.
    + split; [split; assumption |]. split.
      * intros w' n' [X | I].
        -- inversion X; subst w' n'.
           rewrite occurrences_snoc, E, (C w n) by now left. lia.
        -- rewrite occurrences_snoc, (C w' n') by now right.
           destruct (value_eqb w' v) eqn:B; [exfalso | lia].
           pose proof (value_eqb_trans w v w' E (value_eqb_sym _ _ B)) as T.
           pose proof (D1 _ I) as F. cbn in F. congruence.
      * exists (w, S n). split; [now left | exact E].
    + assert (Z' : occurrences v vs = 0%nat
                   \/ exists e, In e rest /\ value_eqb (fst e) v = true).
      { destruct Z as [Z | (e & [<- | I] & B)]; [now left | | right].
        - cbn in B. congruence.
        - now exists e. }
      destruct (IH D2 (fun w' n' I => C w' n' (or_intror I)) Z')
        as (D' & C' & (e & I & B)).
      split; [| split].
      * split; [| exact D'].
        intros e' I'. destruct (tally_keys _ _ _ I') as [(e'' & I'' & K) | ->].
        -- rewrite <- K. now apply D1.
        -- exact E.
      * intros w' n' [X | I'].
        -- inversion X; subst w' n'.
           rewrite occurrences_snoc, E, (C w n) by now left. lia.
        -- now apply C'.
      * exists e. split; [now right | exact B].
Qed.

Lemma tally_keeps (v : value) (counts : list (value * nat)) (e : value * nat) :
  In e counts -> exists e', In e' (tally v counts) /\ fst e' = fst e.
Proof.
  induction counts as [| [w n] rest IH]; [intros [] |].
  cbn [tally]. destruct (value_eqb w v); intros [<- | I].
  - exists (w, S n). split; [now left | reflexivity].
  - exists e. split; [now right | reflexivity].
  - exists (w, n). split; [now left | reflexivity].
  - destruct (IH I) as (e' & I' & K). exists e'. split; [now right | exact K].
Qed.

Lemma counts_of_tally (v : value) (counts : list (value * nat))
    (vs : list value) :
  counts_of counts vs -> counts_of (tally v counts) (vs ++ [v]).
Proof.
  intros (C & K & D).
  assert (Z : occurrences v vs = 0%nat
              \/ exists e, In e counts /\ value_eqb (fst e) v = true).
  { destruct (existsb (value_eqb v) vs) eqn:X.
    - right. apply existsb_exists in X as (u & I & B).
      destruct (K u I) as (e & Ie & Be). exists e. split; [exact Ie |].
      apply value_eqb_trans with u; [exact Be | now apply value_eqb_sym].
    - left. apply occurrences_none. intros u I.
      destruct (value_eqb v u) eqn:B; [| reflexivity].
      rewrite <- X. symmetry. apply existsb_exists. now exists u. }
  destruct (tally_counts_of v counts vs D C Z) as (D' & C' & N).
  split; [exact C' |]. split; [| exact D'].
  intros u I. apply in_app_or in I as [I | [<- | []]]; [| exact N].
  destruct (K u I) as (e & Ie & Be).
  destruct (tally_keeps v counts e Ie) as (e' & Ie' & E).
  exists e'. split; [exact Ie' | now rewrite E].
Qed.

Lemma counts_of_fold (rest done : list value) (counts : list (value * nat)) :
  counts_of counts done ->
  counts_of (fold_left (fun counts v => tally v counts) rest counts)
            (done ++ rest).
Proof.
  revert done counts. induction rest as [| v rest IH]; intros done counts C.
  - now rewrite app_nil_r.
  - cbn [fold_left].
    replace (done ++ v :: rest) with ((done ++ [v]) ++ rest)
      by (now rewrite <- app_assoc).
    apply IH. now apply counts_of_tally.
Qed.

Lemma insert_desc_perm (e : value * nat) (l : list (value * nat)) :
  Permutation (insert_desc e l) (e :: l).
Proof.
  induction l as [| h t IH]; cbn [insert_desc]; [reflexivity |].
  destruct (snd h <=? snd e)%nat; [reflexivity |].
  rewrite IH. apply perm_swap.
Qed.

Lemma sort_desc_perm (l : list (value * nat)) : Permutation (sort_desc l) l.
Proof.
  unfold sort_desc. induction l as [| e l IH]; cbn [fold_right]; [reflexivity |].
  rewrite insert_desc_perm. now constructor.
Qed.

Lemma total_perm (l l' : list (value * nat)) :
  Permutation l l' -> total l = total l'.
Proof.
  unfold total. induction 1; cbn; try lia.
Qed.

Lemma total_tally (v : value) (counts : list (value * nat)) :
  total (tally v counts) = S (total counts).
Proof.
  unfold total. induction counts as [| [w n] rest IH]; [reflexivity |].
  cbn [tally]. destruct (value_eqb w v); cbn in *; lia.
Qed.

Lemma total_fold (vs : list value) (counts : list (value * nat)) :
  total (fold_left (fun counts v => tally v counts) vs counts)
  = (List.length vs + total counts)%nat.
Proof.
  revert counts. induction vs as [| v vs IH]; intros counts; [reflexivity |].
  cbn [fold_left List.length]. rewrite IH, total_tally. lia.
Qed.

(** The counts add up to the number of cells that are not missing. *)
Lemma total_value_counts (s : Series) :
  total (value_counts s) = List.length (dropna s).
Proof.
  unfold value_counts.
  rewrite (total_perm _ _ (sort_desc_perm _)), total_fold. cbn. lia.
Qed.

Lemma tally_positive (v : value) (counts : list (value * nat)) :
  Forall (fun e => (1 <= snd e)%nat) counts ->
  Forall (fun e => (1 <= snd e)%nat) (tally v counts).
Proof.
  induction counts as [| [w n] rest IH]; intros F; cbn [tally].
  - repeat constructor.
  - inversion F as [| ? ? Fh Ft]; subst.
    destruct (value_eqb w v); constructor; cbn in *; auto; lia.
Qed.

Lemma fold_tally_positive (vs : list value) (counts : list (value * nat)) :
  Forall (fun e => (1 <= snd e)%nat) counts ->
  Forall (fun e => (1 <= snd e)%nat)
         (fold_left (fun counts v => tally v counts) vs counts).
Proof.
  revert counts. induction vs as [| v vs IH]; intros counts F; [exact F |].
  cbn [fold_left]. apply IH. now apply tally_positive.
Qed.

(** Each row of [value_counts] is a value of the column with the number of
    its occurrences, and each value of the column has its row. *)
Lemma value_counts_spec (s : Series) :
  (forall w n, In (w, n) (value_counts s) -> n = occurrences w (dropna s))
  /\ (forall v, In v (dropna s) ->
        exists e, In e (value_counts s) /\ value_eqb (fst e) v = true).
Proof.
  assert (C : counts_of
                (fold_left (fun counts v => tally v counts) (dropna s) [])
                (dropna s)).
  { apply (counts_of_fold (dropna s) [] []).
    split; [intros w n [] |]. split; [intros v [] | exact I]. }
  destruct C as (C & K & _). unfold value_counts. split.
  - intros w n H. apply C.
    now apply (Permutation_in _ (sort_desc_perm _)).
  - intros v H. destruct (K v H) as (e & Ie & Be). exists e.
    split; [| exact Be].
    now apply (Permutation_in _ (Permutation_sym (sort_desc_perm _))).
Qed.

(** ** Rounding to an integer *)

Lemma rint_error (y : Q) :
  (y - (1 # 2) <= inject_Z (rint y) /\ inject_Z (rint y) <= y + (1 # 2))%Q.
Proof.
  unfold rint.
  pose proof (Qfloor_le y) as L. pose proof (Qlt_floor y) as U.
  rewrite inject_Z_plus in U. change (inject_Z 1) with 1%Q in U.
  destruct (Qcompare_spec (y - inject_Z (Qfloor y)) (1 # 2)) as [E | E | E].
  - destruct (Z.even (Qfloor y)).
    + split; lra.
    + rewrite inject_Z_plus. change (inject_Z 1) with 1%Q. split; lra.
  - split; lra.
  - rewrite inject_Z_plus. change (inject_Z 1) with 1%Q. split; lra.
Qed.

Lemma rint_cases (y : Q) : rint y = Qfloor y \/ rint y = (Qfloor y + 1)%Z.
Proof.
  unfold rint. destruct (y - inject_Z (Qfloor y) ?= 1 # 2)%Q; auto.
  destruct (Z.even (Qfloor y)); auto.
Qed.

Lemma rint_monotone (x y : Q) : (x <= y)%Q -> (rint x <= rint y)%Z.
Proof.
  intros H. pose proof (Qfloor_resp_le x y H) as F.
  destruct (Z.eq_dec (Qfloor x) (Qfloor y)) as [E | N].
  - unfold rint. rewrite <- E.
    destruct (Qcompare_spec (x - inject_Z (Qfloor x)) (1 # 2)) as [X | X | X];
    destruct (Qcompare_spec (y - inject_Z (Qfloor x)) (1 # 2)) as [Y | Y | Y];
      try destruct (Z.even (Qfloor x)); try lia; exfalso; lra.
  - destruct (rint_cases x) as [-> | ->], (rint_cases y) as [-> | ->]; lia.
Qed.

Lemma rint_integer (z : Z) : rint (inject_Z z) = z.
Proof.
  unfold rint. rewrite Qfloor_Z.
  destruct (Qcompare_spec (inject_Z z - inject_Z z) (1 # 2)) as [X | X | X];
    [exfalso; lra | reflexivity | exfalso; lra].
Qed.

Lemma rint_comp (x y : Q) : (x == y)%Q -> rint x = rint y.
Proof.
  intros E. apply Z.le_antisymm; apply rint_monotone; lra.
Qed.

(** ** The rounding of binary64 *)

Lemma two_power_pos (e : Z) : (0 < two_power e)%Q.
Proof. apply Qpower_0_lt. reflexivity. Qed.

Lemma two_power_add (a b : Z) :
  (two_power (a + b) == two_power a * two_power b)%Q.
Proof. apply Qpower_plus. discriminate. Qed.

Lemma two_power_succ (a : Z) : (two_power (a + 1) == 2 * two_power a)%Q.
Proof. rewrite two_power_add. change (two_power 1) with 2%Q. ring. Qed.

Lemma two_power_le (a b : Z) : (a <= b)%Z -> (two_power a <= two_power b)%Q.
Proof. intros H. apply Qpower_le_compat_l; [exact H | discriminate]. Qed.

Lemma two_power_lt_inv (a b : Z) :
  (two_power a < two_power b)%Q -> (a < b)%Z.
Proof. intros H. apply (Qpower_lt_compat_l_inv 2); [exact H | reflexivity]. Qed.

Lemma two_power_Z (z : Z) :
  (0 <= z)%Z -> (two_power z == inject_Z (2 ^ z))%Q.
Proof. intros H. symmetry. apply (Zpower_Qpower 2 z H). Qed.

Lemma log2_bounds (n : Z) :
  (0 < n)%Z ->
  (two_power (Z.log2 n) <= inject_Z n
   /\ inject_Z n < 2 * two_power (Z.log2 n))%Q.
Proof.
  intros P. destruct (Z.log2_spec n P) as [L U].
  pose proof (Z.log2_nonneg n) as N.
  rewrite <- two_power_succ, !two_power_Z by lia.
  rewrite <- Zle_Qle, <- Zlt_Qlt.
  replace (Z.log2 n + 1)%Z with (Z.succ (Z.log2 n)) by lia.
  now split.
Qed.

(** The binade of a positive rational holds it. *)
Lemma binade_spec (q : Q) :
  (0 < q)%Q ->
  (two_power (binade q) <= q /\ q < two_power (binade q + 1))%Q.
Proof.
  intros P. destruct q as [n d].
  assert (Pn : (0 < n)%Z) by (unfold Qlt in P; cbn in P; lia).
  destruct (log2_bounds n Pn) as [Ln Un].
  destruct (log2_bounds (Zpos d) eq_refl) as [Ld Ud].
  pose proof (two_power_pos (Z.log2 n)) as An.
  pose proof (two_power_pos (Z.log2 (Zpos d))) as Ad.
  set (k := (Z.log2 n - Z.log2 (Zpos d))%Z).
  assert (Q0 : (n # d == inject_Z n / inject_Z (Zpos d))%Q) by apply Qmake_Qdiv.
  assert (D0 : (0 < inject_Z (Zpos d))%Q) by reflexivity.
  assert (M : ((n # d) * inject_Z (Zpos d) == inject_Z n)%Q)
    by (rewrite Q0; field; lra).
  assert (K : (two_power k * two_power (Z.log2 (Zpos d))
               == two_power (Z.log2 n))%Q)
    by (rewrite <- two_power_add; unfold k;
        now replace (Z.log2 n - Z.log2 (Zpos d) + Z.log2 (Zpos d))%Z
          with (Z.log2 n) by lia).
  pose proof (two_power_pos k) as Pk.
  assert (Lo : (two_power k < 2 * (n # d))%Q) by nra.
  assert (Hi : ((n # d) < 2 * two_power k)%Q) by nra.
  unfold binade. cbn [Qnum Qden]. fold k.
  destruct (Qle_bool (two_power k) (n # d)) eqn:B.
  - apply Qle_bool_iff in B. rewrite two_power_succ. now split.
  - assert (B' : ~ (two_power k <= n # d)%Q)
      by (intros C; apply Qle_bool_iff in C; congruence).
    apply Qnot_le_lt in B'.
    replace (k - 1 + 1)%Z with k by lia.
    pose proof (two_power_succ (k - 1)) as S1.
    replace (k - 1 + 1)%Z with k in S1 by lia.
    split; [lra | exact B'].
Qed.

Lemma Qabs_pos_eq (q : Q) : (0 < q)%Q -> Qabs q = q.
Proof.
  destruct q as [n d]. unfold Qlt. cbn. intros P.
  unfold Qabs. f_equal. apply Z.abs_eq. lia.
Qed.

Lemma binary64_zero (q : Q) : (q == 0)%Q -> binary64 q = 0%Q.
Proof.
  intros E. unfold binary64. apply Qeq_bool_iff in E. now rewrite E.
Qed.

(** A positive value is rounded on the grid of its exponent. *)
Lemma binary64_pos (q : Q) :
  (0 < q)%Q ->
  (binary64 q
   == inject_Z (rint (q / two_power (exponent q))) * two_power (exponent q))%Q.
Proof.
  intros P. unfold binary64.
  destruct (Qeq_bool q 0) eqn:E.
  - apply Qeq_bool_iff in E. lra.
  - apply Qred_correct.
Qed.

Lemma exponent_pos (q : Q) :
  (0 < q)%Q -> exponent q = Z.max (binade q - 52) (-1074).
Proof. intros P. unfold exponent. now rewrite Qabs_pos_eq. Qed.

Lemma scaled (q : Q) (e : Z) :
  (q / two_power e * two_power e == q)%Q.
Proof. pose proof (two_power_pos e). field. lra. Qed.

Lemma unit_roundoff_half :
  (two_power (-52) == 2 * unit_roundoff)%Q.
Proof. reflexivity. Qed.

(** The standard model of the rounding error, underflow included. *)
Lemma binary64_error (q : Q) :
  (0 <= q)%Q ->
  (q - (q * unit_roundoff + underflow) <= binary64 q
   /\ binary64 q <= q + (q * unit_roundoff + underflow))%Q.
Proof.
  intros N. pose proof (two_power_pos (-1075)) as Eta. fold underflow in Eta.
  assert (U : (0 < unit_roundoff)%Q) by apply two_power_pos.
  destruct (Qlt_le_dec 0 q) as [P | Z].
  - rewrite (binary64_pos q P).
    set (e := exponent q). pose proof (two_power_pos e) as Pe.
    destruct (rint_error (q / two_power e)) as [L H].
    pose proof (scaled q e) as S.
    set (y := (q / two_power e)%Q) in *.
    set (z := inject_Z (rint y)) in *.
    assert (B : (two_power e <= 2 * (q * unit_roundoff + underflow))%Q).
    { unfold e. rewrite (exponent_pos q P).
      destruct (binade_spec q P) as [Lo _].
      destruct (Z.max_spec (binade q - 52) (-1074)) as [[_ ->] | [_ ->]].
      - assert (D : (two_power (-1074) == 2 * underflow)%Q) by reflexivity.
        rewrite D. assert (0 <= q * unit_roundoff)%Q by nra. lra.
      - replace (binade q - 52)%Z with (binade q + -52)%Z by lia.
        rewrite two_power_add, unit_roundoff_half.
        pose proof (two_power_pos (binade q)). nra. }
    split; nra.
  - assert (E : (q == 0)%Q) by lra.
    rewrite (binary64_zero q E). rewrite E. split; lra.
Qed.

Lemma binary64_nonneg (q : Q) : (0 <= q)%Q -> (0 <= binary64 q)%Q.
Proof.
  intros N. destruct (Qlt_le_dec 0 q) as [P | Z].
  - rewrite (binary64_pos q P).
    pose proof (two_power_pos (exponent q)) as Pe.
    assert (Y : (0 <= q / two_power (exponent q))%Q)
      by (apply Qle_shift_div_l; [exact Pe | lra]).
    pose proof (rint_monotone _ _ Y) as R.
    pose proof (rint_integer 0) as R0. change (inject_Z 0) with 0%Q in R0.
    rewrite R0, Zle_Qle in R. change (inject_Z 0) with 0%Q in R. nra.
  - assert (E : (q == 0)%Q) by lra. rewrite (binary64_zero q E). lra.
Qed.

Lemma binade_monotone (p q : Q) :
  (0 < p)%Q -> (p <= q)%Q -> (binade p <= binade q)%Z.
Proof.
  intros P L. assert (Pq : (0 < q)%Q) by lra.
  destruct (binade_spec p P) as [Lp _], (binade_spec q Pq) as [_ Uq].
  assert (H : (two_power (binade p) < two_power (binade q + 1))%Q) by lra.
  apply two_power_lt_inv in H. lia.
Qed.

(** The significand of a positive value is below 2^53, and at least 2^52
    unless the value is subnormal. *)
Lemma significand_bounds (q : Q) :
  (0 < q)%Q ->
  (rint (q / two_power (exponent q)) <= 2 ^ 53)%Z
  /\ (exponent q = (binade q - 52)%Z ->
      (2 ^ 52 <= rint (q / two_power (exponent q)))%Z).
Proof.
  intros P. destruct (binade_spec q P) as [Lo Hi].
  pose proof (two_power_pos (exponent q)) as Pe.
  pose proof (scaled q (exponent q)) as S.
  set (y := (q / two_power (exponent q))%Q) in *.
  split.
  - assert (Y : (y <= inject_Z (2 ^ 53))%Q).
    { assert (E : (exponent q >= binade q - 52)%Z)
        by (rewrite (exponent_pos q P); lia).
      assert (T : (two_power (binade q + 1)
                   <= two_power 53 * two_power (exponent q))%Q).
      { rewrite <- two_power_add. apply two_power_le. lia. }
      assert (C : (inject_Z (2 ^ 53) == two_power 53)%Q) by reflexivity.
      rewrite C. pose proof (two_power_pos 53). nra. }
    apply rint_monotone in Y. now rewrite rint_integer in Y.
  - intros E.
    assert (Y : (inject_Z (2 ^ 52) <= y)%Q).
    { assert (T : (two_power (binade q)
                   == two_power 52 * two_power (exponent q))%Q).
      { rewrite <- two_power_add. rewrite E.
        now replace (52 + (binade q - 52))%Z with (binade q) by lia. }
      assert (C : (inject_Z (2 ^ 52) == two_power 52)%Q) by reflexivity.
      rewrite C. pose proof (two_power_pos 52). nra. }
    apply rint_monotone in Y. now rewrite rint_integer in Y.
Qed.

(** Rounding keeps the order of the values that are not negative. *)
Lemma binary64_monotone (p q : Q) :
  (0 <= p)%Q -> (p <= q)%Q -> (binary64 p <= binary64 q)%Q.
Proof.
  intros N L. destruct (Qlt_le_dec 0 p) as [P | Z].
  - assert (Pq : (0 < q)%Q) by lra.
    rewrite (binary64_pos p P), (binary64_pos q Pq).
    pose proof (binade_monotone p q P L) as B.
    destruct (significand_bounds p P) as [Up _].
    destruct (significand_bounds q Pq) as [_ Lq].
    pose proof (two_power_pos (exponent p)) as Pp.
    pose proof (two_power_pos (exponent q)) as Pe.
    destruct (Z.eq_dec (exponent p) (exponent q)) as [E | D].
    + rewrite E.
      assert (Y : (p / two_power (exponent q) <= q / two_power (exponent q))%Q).
      { apply Qle_shift_div_l; [exact Pe |]. rewrite scaled. exact L. }
      apply rint_monotone in Y. rewrite Zle_Qle in Y. nra.
    + assert (Lt : (exponent p < exponent q)%Z)
        by (rewrite (exponent_pos p P), (exponent_pos q Pq) in *; lia).
      assert (Eq : exponent q = (binade q - 52)%Z)
        by (rewrite (exponent_pos p P), (exponent_pos q Pq) in *; lia).
      specialize (Lq Eq).
      rewrite Zle_Qle in Up, Lq.
      assert (C3 : (inject_Z (2 ^ 53) == two_power 53)%Q) by reflexivity.
      assert (C2 : (inject_Z (2 ^ 52) == two_power 52)%Q) by reflexivity.
      rewrite C3 in Up. rewrite C2 in Lq.
      assert (T : (two_power 53 * two_power (exponent p)
                   <= two_power 52 * two_power (exponent q))%Q).
      { rewrite <- !two_power_add. apply two_power_le. lia. }
      pose proof (two_power_pos 52). pose proof (two_power_pos 53). nra.
  - assert (E : (p == 0)%Q) by lra. rewrite (binary64_zero p E).
    apply binary64_nonneg. lra.
Qed.


(** ** Operations on floats *)

Lemma binary64_1 : (binary64 1 == 1)%Q.
Proof. reflexivity. Qed.

Lemma binary64_100 : (binary64 100 == 100)%Q.
Proof. reflexivity. Qed.

Lemma binary64_10000 : (binary64 10000 == 10000)%Q.
Proof. reflexivity. Qed.

Lemma unit_roundoff_small :
  (0 < unit_roundoff /\ unit_roundoff <= 1 # 9000000000000000)%Q.
Proof. split; [apply two_power_pos |]. apply Qle_bool_iff. reflexivity. Qed.

Lemma underflow_small : (0 < underflow /\ underflow <= unit_roundoff)%Q.
Proof. split; [apply two_power_pos |]. apply two_power_le. lia. Qed.

Lemma binary64_below (p c : Q) :
  (0 <= p)%Q -> (p <= c)%Q -> (binary64 c == c)%Q -> (binary64 p <= c)%Q.
Proof.
  intros N L E. rewrite <- E. now apply binary64_monotone.
Qed.

Lemma binary64_above (p c : Q) :
  (0 <= c)%Q -> (c <= p)%Q -> (binary64 c == c)%Q -> (c <= binary64 p)%Q.
Proof.
  intros N L E. rewrite <- E. now apply binary64_monotone.
Qed.

Lemma of_count_bounds (n t : nat) :
  (1 <= n)%nat -> (n <= t)%nat ->
  (1 <= of_count n /\ of_count n <= of_count t)%Q.
Proof.
  intros P L. unfold of_count. split.
  - apply binary64_above; [lra | apply (Qnat_le 1 n P) | exact binary64_1].
  - apply binary64_monotone; [apply Qnat_nonneg | now apply Qnat_le].
Qed.

Lemma fdiv_monotone (a a' b : Q) :
  (0 <= a)%Q -> (a <= a')%Q -> (0 <= b)%Q -> (fdiv a b <= fdiv a' b)%Q.
Proof.
  intros A L B. unfold fdiv, Qdiv.
  pose proof (Qinv_le_0_compat b B) as I.
  apply binary64_monotone; nra.
Qed.

Lemma fmul_monotone (a a' k : Q) :
  (0 <= a)%Q -> (a <= a')%Q -> (0 <= k)%Q -> (fmul a k <= fmul a' k)%Q.
Proof. intros A L K. unfold fmul. apply binary64_monotone; nra. Qed.

Lemma fmul_nonneg (a k : Q) : (0 <= a)%Q -> (0 <= k)%Q -> (0 <= fmul a k)%Q.
Proof. intros A K. unfold fmul. apply binary64_nonneg. nra. Qed.

Lemma fdiv_nonneg (a b : Q) : (0 <= a)%Q -> (0 <= b)%Q -> (0 <= fdiv a b)%Q.
Proof.
  intros A B. unfold fdiv, Qdiv. pose proof (Qinv_le_0_compat b B).
  apply binary64_nonneg. nra.
Qed.

Lemma rint_nonneg (y : Q) : (0 <= y)%Q -> (0 <= rint y)%Z.
Proof.
  intros Y. apply rint_monotone in Y.
  pose proof (rint_integer 0) as R0. change (inject_Z 0) with 0%Q in R0.
  now rewrite R0 in Y.
Qed.

Lemma round2_monotone (x x' : Q) :
  (0 <= x)%Q -> (x <= x')%Q -> (round2 x <= round2 x')%Q.
Proof.
  intros X L. unfold round2.
  assert (M : (fmul x 100 <= fmul x' 100)%Q) by (apply fmul_monotone; lra).
  pose proof (fmul_nonneg x 100 X ltac:(lra)) as N.
  pose proof (rint_nonneg _ N) as Z0.
  apply rint_monotone in M. rewrite Zle_Qle in M, Z0.
  change (inject_Z 0) with 0%Q in Z0.
  apply fdiv_monotone; lra.
Qed.

Lemma round2_nonneg (x : Q) : (0 <= x)%Q -> (0 <= round2 x)%Q.
Proof.
  intros X. unfold round2.
  pose proof (rint_nonneg _ (fmul_nonneg x 100 X ltac:(lra))) as Z0.
  rewrite Zle_Qle in Z0. change (inject_Z 0) with 0%Q in Z0.
  apply fdiv_nonneg; lra.
Qed.

Lemma round2_100 : (round2 100 == 100)%Q.
Proof. reflexivity. Qed.

(** A count over a count that is not smaller, as a percentage. *)
Lemma share_steps (n t : nat) :
  (1 <= n)%nat -> (n <= t)%nat ->
  let a := of_count n in
  let b := of_count t in
  let s := fdiv a b in
  let m := fmul s 100 in
  (1 <= a /\ a <= b /\ 0 <= s /\ s <= 1 /\ 0 <= m /\ m <= 100)%Q.
Proof.
  intros P L a b s m. destruct (of_count_bounds n t P L) as [A AB].
  fold a b in A, AB.
  assert (R0 : (0 <= a / b)%Q) by (apply Qle_shift_div_l; lra).
  assert (R1 : (a / b <= 1)%Q) by (apply Qle_shift_div_r; lra).
  assert (S0 : (0 <= s)%Q) by (apply binary64_nonneg; exact R0).
  assert (S1 : (s <= 1)%Q)
    by (apply binary64_below; [exact R0 | exact R1 | exact binary64_1]).
  assert (M0 : (0 <= m)%Q) by (apply fmul_nonneg; lra).
  assert (M1 : (m <= 100)%Q)
    by (apply binary64_below; [lra | lra | exact binary64_100]).
  repeat split; assumption.
Qed.

Lemma share_range (n t : nat) :
  (n <= t)%nat -> (0 <= share n t /\ share n t <= 100)%Q.
Proof.
  intros L. unfold share.
  assert (A0 : (0 <= of_count n)%Q) by (apply binary64_nonneg, Qnat_nonneg).
  assert (B0 : (0 <= of_count t)%Q) by (apply binary64_nonneg, Qnat_nonneg).
  assert (AB : (of_count n <= of_count t)%Q)
    by (apply binary64_monotone; [apply Qnat_nonneg | now apply Qnat_le]).
  pose proof (fdiv_nonneg _ _ A0 B0) as S0.
  assert (S1 : (fdiv (of_count n) (of_count t) <= 1)%Q).
  { destruct (Qlt_le_dec 0 (of_count t)) as [Pb | Zb].
    - apply binary64_below;
        [apply Qle_shift_div_l; lra | apply Qle_shift_div_r; lra
        | exact binary64_1].
    - assert (E : (of_count t == 0)%Q) by lra.
      assert (D : (of_count n / of_count t == 0)%Q)
        by (unfold Qdiv; rewrite E; change (/ 0)%Q with 0%Q; ring).
      apply binary64_below; [lra | lra | exact binary64_1]. }
  pose proof (fmul_nonneg _ 100 S0 ltac:(lra)) as M0.
  assert (M1 : (fmul (fdiv (of_count n) (of_count t)) 100 <= 100)%Q)
    by (apply binary64_below; [lra | lra | exact binary64_100]).
  split; [now apply round2_nonneg |].
  apply Qle_trans with (round2 100); [now apply round2_monotone |].
  rewrite round2_100. lra.
Qed.

Lemma share_monotone (n m t : nat) :
  (n <= m)%nat -> (share n t <= share m t)%Q.
Proof.
  intros L. unfold share.
  assert (A0 : (0 <= of_count n)%Q) by (apply binary64_nonneg, Qnat_nonneg).
  assert (B0 : (0 <= of_count t)%Q) by (apply binary64_nonneg, Qnat_nonneg).
  assert (AB : (of_count n <= of_count m)%Q)
    by (apply binary64_monotone; [apply Qnat_nonneg | now apply Qnat_le]).
  pose proof (fdiv_nonneg _ _ A0 B0) as S0.
  pose proof (fdiv_monotone _ _ _ A0 AB B0) as S1.
  apply round2_monotone; [apply fmul_nonneg; lra |].
  apply fmul_monotone; lra.
Qed.

Lemma binary64_near (q : Q) :
  (0 <= q)%Q ->
  (q - (q * roundoff_bound + roundoff_bound) <= binary64 q
   /\ binary64 q <= q + (q * roundoff_bound + roundoff_bound))%Q.
Proof.
  intros N. destruct (binary64_error q N) as [L H].
  destruct unit_roundoff_small as [U0 U1], underflow_small as [E0 E1].
  unfold roundoff_bound.
  assert (M : (q * unit_roundoff <= q * (1 # 9000000000000000))%Q) by nra.
  split; lra.
Qed.

Lemma Qnat_1 (n : nat) : (1 <= n)%nat -> (1 <= Qnat n)%Q.
Proof. intros H. apply (Qnat_le 1 n H). Qed.

(** The quotient of the two converted counts is the exact share, up to a
    few units in the last place. *)
Lemma quotient_near (n t : nat) :
  (1 <= n)%nat -> (n <= t)%nat ->
  (Qnat n / Qnat t - 8 * roundoff_bound <= of_count n / of_count t
   /\ of_count n / of_count t <= Qnat n / Qnat t + 8 * roundoff_bound)%Q.
Proof.
  intros P L.
  pose proof (Qnat_1 n P) as N1. pose proof (Qnat_le n t L) as NT.
  destruct (binary64_near (Qnat n) (Qnat_nonneg n)) as [La Ha].
  destruct (binary64_near (Qnat t) (Qnat_nonneg t)) as [Lb Hb].
  destruct (of_count_bounds n t P L) as [A1 AB].
  fold (of_count n) in La, Ha. fold (of_count t) in Lb, Hb.
  set (a := of_count n) in *. set (b := of_count t) in *.
  set (n' := Qnat n) in *. set (t' := Qnat t) in *.
  assert (X0 : (0 <= n' / t')%Q) by (apply Qle_shift_div_l; lra).
  assert (X1 : (n' / t' <= 1)%Q) by (apply Qle_shift_div_r; lra).
  assert (XN : (n' / t' * t' == n')%Q) by (field; lra).
  set (x := (n' / t')%Q) in *.
  unfold roundoff_bound in *.
  split.
  - apply Qle_shift_div_l; [lra |].
    destruct (Qlt_le_dec (x - 8 * (1 # 9000000000000000)) 0) as [Neg | Pos].
    + nra.
    + assert (K : ((x - 8 * (1 # 9000000000000000)) * b
                   <= (x - 8 * (1 # 9000000000000000))
                      * (t' + (t' * (1 # 9000000000000000)
                               + (1 # 9000000000000000))))%Q) by nra.
      assert (R : ((x - 8 * (1 # 9000000000000000))
                   * (t' + (t' * (1 # 9000000000000000)
                            + (1 # 9000000000000000)))
                   == n' * (1 + (1 # 9000000000000000))
                      + x * (1 # 9000000000000000)
                      - 8 * (1 # 9000000000000000)
                        * (t' + (t' * (1 # 9000000000000000)
                                 + (1 # 9000000000000000))))%Q)
        by (rewrite <- XN; ring).
      lra.
  - apply Qle_shift_div_r; [lra |].
    assert (K : ((x + 8 * (1 # 9000000000000000))
                 * (t' - (t' * (1 # 9000000000000000)
                          + (1 # 9000000000000000)))
                 <= (x + 8 * (1 # 9000000000000000)) * b)%Q) by nra.
    assert (R : ((x + 8 * (1 # 9000000000000000))
                 * (t' - (t' * (1 # 9000000000000000)
                          + (1 # 9000000000000000)))
                 == n' * (1 - (1 # 9000000000000000))
                    - x * (1 # 9000000000000000)
                    + 8 * (1 # 9000000000000000)
                      * (t' - (t' * (1 # 9000000000000000)
                               + (1 # 9000000000000000))))%Q)
      by (rewrite <- XN; ring).
    lra.
Qed.

(** The printed share of [n] cells among [t] is the exact percentage
    rounded to two decimals, up to the rounding of binary64. *)
Lemma share_near (n t : nat) :
  (1 <= n)%nat -> (n <= t)%nat ->
  (Qabs (share n t - Qnat n / Qnat t * 100) <= (1 # 200) + tolerance)%Q.
Proof.
  intros P L. destruct (quotient_near n t P L) as [Lq Hq].
  destruct (share_steps n t P L) as (A1 & AB & S0 & S1 & M0 & M1).
  cbv zeta in *.
  assert (R0 : (0 <= of_count n / of_count t)%Q)
    by (apply Qle_shift_div_l; lra).
  assert (R1 : (of_count n / of_count t <= 1)%Q)
    by (apply Qle_shift_div_r; lra).
  destruct (binary64_near _ R0) as [Ls Hs].
  fold (fdiv (of_count n) (of_count t)) in Ls, Hs.
  set (rho := (of_count n / of_count t)%Q) in *.
  set (s := fdiv (of_count n) (of_count t)) in *.
  assert (P100 : (0 <= s * 100)%Q) by lra.
  destruct (binary64_near _ P100) as [Lm Hm]. fold (fmul s 100) in Lm, Hm.
  set (m := fmul s 100) in *.
  assert (Q100 : (0 <= m * 100)%Q) by lra.
  destruct (binary64_near _ Q100) as [Ly Hy]. fold (fmul m 100) in Ly, Hy.
  assert (Y1 : (fmul m 100 <= 10000)%Q)
    by (apply binary64_below; [lra | lra | exact binary64_10000]).
  assert (Y0 : (0 <= fmul m 100)%Q) by (apply fmul_nonneg; lra).
  set (y := fmul m 100) in *.
  destruct (rint_error y) as [Lz Hz].
  pose proof (rint_nonneg y Y0) as Z0.
  pose proof (rint_monotone _ _ Y1) as Z1.
  pose proof (rint_integer 10000) as RI.
  change (inject_Z 10000) with 10000%Q in RI. rewrite RI in Z1.
  rewrite Zle_Qle in Z0, Z1.
  change (inject_Z 0) with 0%Q in Z0.
  change (inject_Z 10000) with 10000%Q in Z1.
  set (z := inject_Z (rint y)) in *.
  assert (D0 : (0 <= z / 100)%Q) by (apply Qle_shift_div_l; lra).
  assert (DE : (z / 100 == z * (1 # 100))%Q) by (unfold Qdiv; reflexivity).
  destruct (binary64_near _ D0) as [Lr Hr]. fold (fdiv z 100) in Lr, Hr.
  unfold share, round2. fold s m y z.
  set (r := fdiv z 100) in *.
  unfold tolerance, roundoff_bound in *.
  apply Qabs_Qle_condition. split; lra.
Qed.

(** The percentage printed is the float nearest to a whole number of
    hundredths. *)
Lemma share_hundredths (n t : nat) :
  (1 <= n)%nat -> (n <= t)%nat ->
  exists z : Z, (0 <= z <= 10000)%Z /\ share n t = fdiv (inject_Z z) 100.
Proof.
  intros P L. destruct (share_steps n t P L) as (A1 & AB & S0 & S1 & M0 & M1).
  cbv zeta in *.
  set (m := fmul (fdiv (of_count n) (of_count t)) 100) in *.
  exists (rint (fmul m 100)). split; [| reflexivity].
  assert (Y1 : (fmul m 100 <= 10000)%Q)
    by (apply binary64_below; [lra | lra | exact binary64_10000]).
  assert (Y0 : (0 <= fmul m 100)%Q) by (apply fmul_nonneg; lra).
  pose proof (rint_nonneg _ Y0) as Z0.
  pose proof (rint_monotone _ _ Y1) as Z1.
  pose proof (rint_integer 10000) as RI.
  change (inject_Z 10000) with 10000%Q in RI. rewrite RI in Z1.
  split; assumption.
Qed.

(** 23 answers out of 160 are 14.375 per cent; the product of the floats is
    just below, and the row reads 14.37. *)
Example share_23_of_160 : share 23 160 = binary64 (1437 # 100).
Proof. vm_compute. reflexivity. Qed.

(** ** The printed percentages *)

Lemma Qnat_S (n : nat) : (Qnat (S n) == Qnat n + 1)%Q.
Proof.
  unfold Qnat. rewrite Nat2Z.inj_succ, <- Z.add_1_r, inject_Z_plus.
  reflexivity.
Qed.

Lemma Qnat_add (n m : nat) : (Qnat (n + m) == Qnat n + Qnat m)%Q.
Proof. unfold Qnat. rewrite Nat2Z.inj_add, inject_Z_plus. reflexivity. Qed.

Lemma tabulation_map (s : Series) :
  tabulation s
  = map (fun e => (fst e, share (snd e) (total (value_counts s))))
        (value_counts s).
Proof.
  unfold tabulation, table_round, table_mul, normalized.
  now rewrite !map_map.
Qed.

Lemma tabulation_rows (s : Series) (w : value) (p : Q) :
  In (w, p) (tabulation s) ->
  exists n, In (w, n) (value_counts s)
            /\ p = share n (total (value_counts s)).
Proof.
  rewrite tabulation_map. intros H. apply in_map_iff in H as ([v n] & E & I).
  cbn in E. inversion E; subst. now exists n.
Qed.

Lemma in_le_total (counts : list (value * nat)) (e : value * nat) :
  In e counts -> (snd e <= total counts)%nat.
Proof.
  unfold total. induction counts as [| h rest IH]; [intros [] |].
  cbn [fold_right]. intros [<- | I]; [lia |]. specialize (IH I). lia.
Qed.

(** Every row of [value_counts] counts at least one cell and at most all
    of them. *)
Lemma value_counts_bounds (s : Series) (e : value * nat) :
  In e (value_counts s) ->
  (1 <= snd e)%nat /\ (snd e <= total (value_counts s))%nat.
Proof.
  intros I. split; [| now apply in_le_total].
  unfold value_counts in I. apply (Permutation_in _ (sort_desc_perm _)) in I.
  assert (F : Forall (fun e => (1 <= snd e)%nat)
                (fold_left (fun counts v => tally v counts) (dropna s) []))
    by (apply fold_tally_positive; constructor).
  rewrite Forall_forall in F. now apply F.
Qed.

(** The printed percentages of some rows add up to the exact percentage of
    their counts together, within the tolerance of each row. *)
Lemma table_sum_shares (t : nat) (counts : list (value * nat)) :
  Forall (fun e => (1 <= snd e)%nat /\ (snd e <= t)%nat) counts ->
  (Qabs (table_sum (map (fun e => (fst e, share (snd e) t)) counts)
         - Qnat (total counts) / Qnat t * 100)
   <= Qnat (List.length counts) * ((1 # 200) + tolerance))%Q.
Proof.
  induction 1 as [| [w n] rest [P L] _ IH].
  - unfold table_sum, total. cbn [map fold_right List.length].
    change (Qnat 0) with 0%Q.
    assert (E : (0 / Qnat t * 100 == 0)%Q) by (unfold Qdiv; ring).
    rewrite E. apply Qabs_Qle_condition. split; lra.
  - unfold table_sum, total in *.
    cbn [map fold_right List.length fst snd] in *.
    pose proof (share_near n t P L) as S1.
    apply Qabs_Qle_condition in S1, IH. apply Qabs_Qle_condition.
    set (sum := fold_right (fun e acc => (snd e + acc)%nat) 0%nat rest) in *.
    assert (E : (Qnat (n + sum) / Qnat t * 100
                 == Qnat n / Qnat t * 100 + Qnat sum / Qnat t * 100)%Q)
      by (rewrite Qnat_add; unfold Qdiv; ring).
    rewrite E, Qnat_S. unfold tolerance in *. split; lra.
Qed.

(** C9: for a field that the frame has, with at least one cell that is not
    missing, the step of [analyze_demographics] prints one row per distinct
    value.  The percentage of a row is the number of cells equal to its
    value over the number of cells that are not missing, times 100, rounded
    to two decimals, all in binary64 arithmetic: it is the float nearest to
    a whole number of hundredths, and within 0.005 (and the tolerance of
    the floats, a millionth of a millionth) of the exact percentage.  The
    printed percentages differ from 100 by at most that much per row. *)
Theorem analyze_demographics_percentages
    (df : DataFrame) (var : str) (col : Series) :
  getitem df var = ret (OneSeries col) ->
  (0 < List.length (dropna col))%nat ->
  let rows := tabulation col in
  analyze_var df var = ([InfoAnalysis var; Tabulation rows], inr tt)
  /\ (forall w p, In (w, p) rows ->
        p = share (occurrences w (dropna col)) (List.length (dropna col))
        /\ (exists z : Z, (0 <= z <= 10000)%Z /\ p = fdiv (inject_Z z) 100)
        /\ (Qabs (p - Qnat (occurrences w (dropna col))
                      / Qnat (List.length (dropna col)) * 100)
            <= (1 # 200) + tolerance)%Q)
  /\ (forall v, In v (dropna col) ->
        exists w p, In (w, p) rows /\ value_eqb w v = true)
  /\ (Qabs (table_sum rows - 100)
      <= Qnat (List.length rows) * ((1 # 200) + tolerance))%Q.
Proof.
  intros G P. cbv zeta. destruct (value_counts_spec col) as [C K].
  split; [now apply analyze_var_series |]. split; [| split].
  - intros w p H. apply tabulation_rows in H as (n & I & ->).
    destruct (value_counts_bounds col (w, n) I) as [N1 Nt]. cbn [snd] in N1, Nt.
    rewrite total_value_counts in *. rewrite <- (C w n I).
    split; [reflexivity |].
    split; [now apply share_hundredths | now apply share_near].
  - intros v I. destruct (K v I) as ([w n] & Ie & Be).
    exists w. eexists. split; [| exact Be].
    rewrite tabulation_map.
    apply in_map_iff. exists (w, n). split; [reflexivity | exact Ie].
  - rewrite tabulation_map, length_map.
    assert (F : Forall (fun e => (1 <= snd e)%nat
                                 /\ (snd e <= total (value_counts col))%nat)
                  (value_counts col))
      by (apply Forall_forall; intros e; apply value_counts_bounds).
    pose proof (table_sum_shares _ _ F) as B.
    assert (T : (Qnat (total (value_counts col))
                 / Qnat (total (value_counts col)) * 100 == 100)%Q).
    { rewrite total_value_counts. pose proof (Qnat_pos _ P). field. lra. }
    rewrite T in B. exact B.
Qed.

Lemma analyze_demographics_percentages_witness :
  getitem survey (py "sexo") = ret (OneSeries survey_sexo)
  /\ (0 < List.length (dropna survey_sexo))%nat
  /\ analyze_var survey (py "sexo")
     = ([InfoAnalysis (py "sexo");
         Tabulation (tabulation survey_sexo)], inr tt)
  /\ (Qabs (table_sum (tabulation survey_sexo) - 100)
      <= Qnat (List.length (tabulation survey_sexo))
         * ((1 # 200) + tolerance))%Q.
Proof.
  assert (G : getitem survey (py "sexo")
              = ret (OneSeries survey_sexo))
    by reflexivity.
  assert (P : (0 < List.length (dropna survey_sexo))%nat)
    by (vm_compute; lia).
  split; [exact G |]. split; [exact P |].
  destruct (analyze_demographics_percentages survey (py "sexo") survey_sexo G P)
    as (R & _ & _ & B).
  split; [exact R | exact B].
Defined.

(** Four answers F and two answers M out of six: 66.67 and 33.33, each the
    float nearest to it. *)
Example tabulation_survey_sexo :
  tabulation survey_sexo
  = [(Str (py "F"), binary64 (6667 # 100));
     (Str (py "M"), binary64 (3333 # 100))].
Proof. vm_compute. reflexivity. Qed.


(* ===================================================================== *)
(** * Further properties of the column-name cleaning *)
(* ===================================================================== *)

Lemma clean_frame_map (U : UnicodeData) (df : DataFrame) :
  clean_frame U df = map (fun col => (cleaned U (fst col), snd col)) df.
Proof.
  unfold clean_frame, set_columns, columns.
  induction df as [| col df IH]; [reflexivity |]. cbn. now rewrite IH.
Qed.

Lemma clean_column_names_frame (U : UnicodeData) (df : DataFrame) :
  df <> [] ->
  clean_column_names U df
  = ([BannerCleaning; CleanedOk; CleanedExample], inr (clean_frame U df)).
Proof. apply clean_column_names_returns. Qed.


(** X2: ASCII text survives the encoding and decoding of the pipeline
    unchanged: the decoder never meets a byte it refuses. *)
Theorem ascii_round_trip (s : str) :
  ascii_only s = true -> decode_utf8 (encode_ascii_ignore s) = Some s.
Proof.
  intros A. rewrite decode_encode_ascii. f_equal.
  induction s as [| c s IH]; [reflexivity |].
  cbn in A. apply andb_true_iff in A as [Ac A].
  cbn [filter]. now rewrite Ac, (IH A).
Qed.

Lemma ascii_round_trip_witness :
  ascii_only (py "edad_tramo") = true
  /\ decode_utf8 (encode_ascii_ignore (py "edad_tramo"))
     = Some (py "edad_tramo").
Proof.
  split; [reflexivity |]. apply ascii_round_trip. reflexivity.
Defined.

Lemma canonical_insert_ascii (U : UnicodeData) (c : codepoint) (out : str) :
  (forall c, is_ascii c = true -> combining U c = 0) ->
  filter is_ascii (rev (canonical_insert U c out))
  = filter is_ascii (rev out) ++ filter is_ascii [c].
Proof.
  intros H. induction out as [| p r IH]; [reflexivity |].
  cbn [canonical_insert].
  destruct (negb (combining U c =? 0) && negb (combining U p =? 0)
            && (combining U c <? combining U p)) eqn:M.
  - assert (Ac : is_ascii c = false).
    { destruct (is_ascii c) eqn:Ac; [| reflexivity].
      rewrite (H c Ac) in M. discriminate. }
    cbn [rev filter] in *. rewrite Ac in *.
    rewrite !filter_app, IH, !app_nil_r. reflexivity.
  - cbn [rev]. now rewrite filter_app.
Qed.

Lemma canonical_order_ascii (U : UnicodeData) (s : str) :
  (forall c, is_ascii c = true -> combining U c = 0) ->
  filter is_ascii (canonical_order U s) = filter is_ascii s.
Proof.
  intros H. unfold canonical_order.
  assert (G : forall out,
    filter is_ascii
      (rev (fold_left (fun out c => canonical_insert U c out) s out))
    = filter is_ascii (rev out) ++ filter is_ascii s).
  { induction s as [| c s IH]; intros out; cbn [fold_left].
    - now rewrite app_nil_r.
    - rewrite IH, canonical_insert_ascii by exact H.
      rewrite <- app_assoc. f_equal. cbn [filter].
      now destruct (is_ascii c). }
  apply (G []).
Qed.

(** X3: the canonical reordering of combining marks never shows in a
    cleaned label.  With no ASCII character a combining mark, the label is
    the ASCII characters of the decomposed lowercase name, in the order of
    the decomposition: an accented letter leaves its base letter where it
    stood. *)
Theorem cleaned_keeps_order (U : UnicodeData) (name : str) :
  (forall c, is_ascii c = true -> combining U c = 0) ->
  cleaned U name
  = filter is_ascii (flat_map (compat_decomposition U) (lower U name)).
Proof.
  intros H. unfold cleaned, normalize_NFKD. now apply canonical_order_ascii.
Qed.

Lemma excerpt_combining_ascii (c : codepoint) :
  is_ascii c = true -> combining Excerpt.ucd c = 0.
Proof.
  unfold is_ascii. intros A. apply N.ltb_lt in A. cbn. unfold Excerpt.combining.
  destruct (N.leb_spec 0x300 c); [lia |].
  destruct (N.eqb_spec c 0x30A); [lia |].
  destruct (N.eqb_spec c 0x327); [lia |]. reflexivity.
Qed.

Lemma cleaned_keeps_order_witness :
  cleaned Excerpt.ucd (py "Regi" ++ [0xF3] ++ py "n")
  = filter is_ascii
      (flat_map (compat_decomposition Excerpt.ucd)
                (lower Excerpt.ucd (py "Regi" ++ [0xF3] ++ py "n"))).
Proof.
  apply (cleaned_keeps_order Excerpt.ucd (py "Regi" ++ [0xF3] ++ py "n")
           excerpt_combining_ascii).
Defined.

Lemma ascii_lower_ascii (c : codepoint) :
  is_ascii c = true ->
  is_ascii (ascii_lower c) = true /\ is_upper_ascii (ascii_lower c) = false.
Proof.
  unfold is_ascii, ascii_lower, is_upper_ascii. intros A. apply N.ltb_lt in A.
  destruct ((65 <=? c) && (c <=? 90)) eqn:Up.
  - apply andb_true_iff in Up as [L R]. apply N.leb_le in L, R. split.
    + apply N.ltb_lt. lia.
    + apply andb_false_iff. right. apply N.leb_gt. lia.
  - split; [apply N.ltb_lt; lia | exact Up].
Qed.

Lemma do_lower_ascii (U : UnicodeData) (s before : str) :
  (forall c, is_ascii c = true -> lower_full U c = [ascii_lower c]) ->
  ascii_only s = true -> do_lower U before s = map ascii_lower s.
Proof.
  intros H. revert before. induction s as [| c s IH]; intros before A;
    [reflexivity |].
  cbn in A. apply andb_true_iff in A as [Ac A]. cbn [do_lower map].
  replace (c =? 0x3A3) with false.
  - now rewrite (H c Ac), (IH _ A).
  - symmetry. apply N.eqb_neq. unfold is_ascii in Ac.
    apply N.ltb_lt in Ac. lia.
Qed.

Lemma map_ascii_lower_clean (s : str) :
  ascii_only s = true ->
  ascii_only (map ascii_lower s) = true
  /\ no_upper_ascii (map ascii_lower s) = true.
Proof.
  induction s as [| c s IH]; intros A; [now split |].
  cbn in A. apply andb_true_iff in A as [Ac A].
  destruct (IH A) as [IA IL]. destruct (ascii_lower_ascii c Ac) as [LA LU].
  unfold ascii_only, no_upper_ascii in *. cbn [map forallb].
  rewrite LA, LU, IA, IL. now split.
Qed.

Lemma ascii_tables_lower (U : UnicodeData) :
  ascii_tables U ->
  forall c, is_ascii c = true -> is_upper_ascii c = false ->
            lower_full U c = [c].
Proof.
  intros (L & _ & _) c A N. rewrite (L c A). unfold ascii_lower. now rewrite N.
Qed.

(** X4: on a name written in ASCII the cleaning is the lowercasing of its
    capital letters and nothing else: the label keeps its length and comes
    out lowercase. *)
Theorem cleaned_ascii_name (U : UnicodeData) (name : str) :
  ascii_tables U ->
  ascii_only name = true ->
  cleaned U name = map ascii_lower name
  /\ List.length (cleaned U name) = List.length name
  /\ no_upper_ascii (cleaned U name) = true.
Proof.
  intros T A. destruct (map_ascii_lower_clean name A) as [MA ML].
  assert (E : cleaned U name = map ascii_lower name).
  { pose proof T as (L & D & C).
    unfold cleaned, lower, normalize_NFKD.
    rewrite (do_lower_ascii U name [] L A).
    rewrite (decomposition_fixed U D _ MA), (canonical_order_fixed U C _ MA).
    now apply filter_ascii_fixed. }
  rewrite E. split; [reflexivity |]. split; [apply length_map | exact ML].
Qed.

Lemma excerpt_decomposition_ascii (c : codepoint) :
  is_ascii c = true -> compat_decomposition Excerpt.ucd c = [c].
Proof.
  unfold is_ascii. intros A. apply N.ltb_lt in A.
  assert (B : forallb
                (fun n => match Excerpt.compat_decomposition (N.of_nat n) with
                          | [d] => d =? N.of_nat n
                          | _ => false
                          end) (seq 0 128) = true) by (vm_compute; reflexivity).
  rewrite forallb_forall in B.
  specialize (B (N.to_nat c)). rewrite N2Nat.id in B. cbn.
  destruct (Excerpt.compat_decomposition c) as [| d [| d' l]];
    try (discriminate B; apply in_seq; lia).
  f_equal. apply N.eqb_eq. apply B. apply in_seq. lia.
Qed.

Lemma excerpt_ascii_tables : ascii_tables Excerpt.ucd.
Proof.
  split; [| split; [exact excerpt_decomposition_ascii
                   | exact excerpt_combining_ascii]].
  intros c A. cbn. unfold Excerpt.lower_full, ascii_lower, is_upper_ascii.
  unfold is_ascii in A. apply N.ltb_lt in A.
  change 0x41 with 65. change 0x5A with 90.
  destruct ((65 <=? c) && (c <=? 90)); [reflexivity |].
  destruct (N.leb_spec 0xC0 c); [lia |]. cbn [andb].
  destruct (N.eqb_spec c 0x3A3); [lia | reflexivity].
Qed.

Lemma cleaned_ascii_name_witness :
  ascii_only (py "EDAD_Tramo") = true
  /\ cleaned Excerpt.ucd (py "EDAD_Tramo") = py "edad_tramo".
Proof.
  split; [reflexivity |].
  apply (cleaned_ascii_name Excerpt.ucd (py "EDAD_Tramo") excerpt_ascii_tables).
  reflexivity.
Defined.

Lemma clean_frame_twice (U : UnicodeData) (df : DataFrame) :
  ascii_tables U ->
  (forall label, In label (columns df) ->
                 no_upper_ascii (cleaned U label) = true) ->
  clean_frame U (clean_frame U df) = clean_frame U df.
Proof.
  intros T H. rewrite !clean_frame_map, map_map. cbn [fst snd].
  apply map_ext_in. intros col I. f_equal.
  pose proof T as (_ & D & C).
  apply (cleaned_twice U (ascii_tables_lower U T) D C).
  apply H. unfold columns. now apply in_map.
Qed.

(** X5: cleaning the cleaned frame again returns it unchanged whenever the
    first cleaning left no capital letter in a label (which holds for every
    ASCII name, by X4). *)
Theorem clean_column_names_again (U : UnicodeData) (df : DataFrame) :
  ascii_tables U ->
  (forall label, In label (columns df) ->
                 no_upper_ascii (cleaned U label) = true) ->
  result (df1 <- clean_column_names U df ;; clean_column_names U df1)%out
  = result (clean_column_names U df).
Proof.
  intros T H. destruct df as [| col df]; [reflexivity |].
  rewrite (clean_column_names_frame U (col :: df)) by discriminate.
  unfold bind.
  rewrite (clean_column_names_frame U (clean_frame U (col :: df)))
    by (rewrite clean_frame_map; discriminate).
  unfold result. cbn [snd]. now rewrite clean_frame_twice.
Qed.

Lemma clean_column_names_again_witness :
  result (df1 <- clean_column_names Excerpt.ucd survey ;;
          clean_column_names Excerpt.ucd df1)%out
  = result (clean_column_names Excerpt.ucd survey).
Proof.
  apply (clean_column_names_again Excerpt.ucd survey excerpt_ascii_tables).
  intros label [<- | [<- | []]]; reflexivity.
Defined.

Lemma labelled_clean_frame (U : UnicodeData) (label : str) (df : DataFrame) :
  labelled label (clean_frame U df)
  = map (fun col => (cleaned U (fst col), snd col))
        (filter (fun col => str_eqb label (cleaned U (fst col))) df).
Proof.
  rewrite clean_frame_map. unfold labelled.
  induction df as [| col df IH]; [reflexivity |].
  cbn [map filter fst]. destruct (str_eqb label (cleaned U (fst col)));
    cbn [map]; now rewrite IH.
Qed.

Lemma getitem_repeated (df : DataFrame) (label : str) (c1 c2 : str * Series)
    (rest : DataFrame) :
  labelled label df = c1 :: c2 :: rest ->
  getitem df label = ret (SubFrame (map snd (c1 :: c2 :: rest))).
Proof. unfold getitem, labelled. now intros ->. Qed.

Lemma str_eqb_refl (s : str) : str_eqb s s = true.
Proof. now apply str_eqb_eq. Qed.

(** X6: cleaning can make two labels one.  When two columns of the frame
    have labels that both clean to nps, the cleaned frame holds the label
    twice, the selection is a sub-frame and [calculate_nps] stops after its
    banner with a TypeError. *)
Theorem calculate_nps_after_collision
    (U : UnicodeData) (parse_number : str -> option number)
    (a b c : DataFrame) (l1 l2 : str) (c1 c2 : Series) :
  cleaned U l1 = py "nps" ->
  cleaned U l2 = py "nps" ->
  calculate_nps parse_number
    (clean_frame U (a ++ (l1, c1) :: b ++ (l2, c2) :: c))
  = ([BannerNps], inl TypeError).
Proof.
  intros E1 E2.
  assert (L : exists x y rest,
             labelled (py "nps")
               (clean_frame U (a ++ (l1, c1) :: b ++ (l2, c2) :: c))
             = x :: y :: rest).
  { assert (N : (2 <= List.length
                        (labelled (py "nps")
                           (clean_frame U (a ++ (l1, c1) :: b ++ (l2, c2) :: c))))%nat).
    { rewrite labelled_clean_frame, length_map, filter_app. cbn [filter fst].
      rewrite E1, str_eqb_refl, filter_app. cbn [filter fst].
      rewrite E2, str_eqb_refl, !length_app. cbn [List.length].
      rewrite !length_app. cbn [List.length]. lia. }
    destruct (labelled _ _) as [| x [| y rest]]; cbn in N; try lia.
    now exists x, y, rest. }
  destruct L as (x & y & rest & L).
  apply (calculate_nps_frame parse_number _ (map snd (x :: y :: rest))).
  now apply getitem_repeated.
Qed.

Lemma calculate_nps_after_collision_witness :
  calculate_nps parse_integer
    (clean_frame Excerpt.ucd
       ([] ++ (py "NPS", [Some (Num (Finite 9))])
           :: [] ++ (py "nps", [Some (Num (Finite 3))]) :: []))
  = ([BannerNps], inl TypeError).
Proof.
  apply (calculate_nps_after_collision Excerpt.ucd parse_integer
           [] [] [] (py "NPS") (py "nps")); reflexivity.
Defined.

(* ===================================================================== *)
(** * Further properties of the Net Promoter Score *)
(* ===================================================================== *)

Lemma has_column_labelled (label : str) (df : DataFrame) :
  has_column label df = false <-> labelled label df = [].
Proof.
  split; [apply has_column_false_filter |].
  unfold has_column, columns, labelled.
  induction df as [| c df IH]; [reflexivity |].
  cbn. destruct (str_eqb label (fst c)); [discriminate | exact IH].
Qed.

Lemma calculate_nps_cases
    (parse_number : str -> option number) (df : DataFrame) :
  calculate_nps parse_number df
  = match labelled (py "nps") df with
    | [] => ([BannerNps; WarnNpsNotFound], inr tt)
    | [col] =>
        match scores_of parse_number (snd col) with
        | [] => ([BannerNps; InfoNoValidNps], inr tt)
        | _ :: _ => (report (scores_of parse_number (snd col)), inr tt)
        end
    | _ :: _ :: _ => ([BannerNps], inl TypeError)
    end.
Proof.
  destruct (labelled (py "nps") df) as [| col [| col' rest]] eqn:L.
  - apply calculate_nps_no_column. now apply has_column_labelled.
  - apply calculate_nps_series. unfold getitem. fold (labelled (py "nps") df).
    now rewrite L.
  - apply (calculate_nps_frame _ _ (map snd (col :: col' :: rest))).
    now apply getitem_repeated.
Qed.

(** X7: the three ways a run of [calculate_nps] ends, decided by the number
    of columns under the label nps.  None: the banner and the warning.
    One: the banner, then the no-data notice or the report.  Several: a
    TypeError after the banner.  So the run never ends in a KeyError or a
    division by zero, and it raises exactly when the label is repeated. *)
Theorem calculate_nps_outcomes
    (parse_number : str -> option number) (df : DataFrame) :
  calculate_nps parse_number df
  = match labelled (py "nps") df with
    | [] => ([BannerNps; WarnNpsNotFound], inr tt)
    | [col] =>
        match scores_of parse_number (snd col) with
        | [] => ([BannerNps; InfoNoValidNps], inr tt)
        | _ :: _ => (report (scores_of parse_number (snd col)), inr tt)
        end
    | _ :: _ :: _ => ([BannerNps], inl TypeError)
    end.
Proof. apply calculate_nps_cases. Qed.

Lemma series_sum_full (f : number -> bool) (scores : list number) :
  series_sum (map f scores) = List.length scores
  <-> Forall (fun v => f v = true) scores.
Proof.
  induction scores as [| v scores IH]; [cbn; split; auto |].
  cbn [map List.length]. rewrite series_sum_cons.
  pose proof (series_sum_le_length (map f scores)) as B.
  rewrite length_map in B. split.
  - intros H. destruct (f v) eqn:F; [| lia].
    constructor; [exact F | apply IH; lia].
  - intros H. inversion H as [| ? ? F R]; subst. rewrite F.
    apply IH in R. lia.
Qed.

Lemma series_sum_none (f : number -> bool) (scores : list number) :
  series_sum (map f scores) = 0%nat
  <-> Forall (fun v => f v = false) scores.
Proof.
  induction scores as [| v scores IH]; [cbn; split; auto |].
  cbn [map]. rewrite series_sum_cons. split.
  - intros H. destruct (f v) eqn:F; [lia |].
    constructor; [exact F | apply IH; lia].
  - intros H. inversion H as [| ? ? F R]; subst. rewrite F.
    apply IH in R. lia.
Qed.

Lemma Qnat_inj (n m : nat) : (Qnat n == Qnat m)%Q -> n = m.
Proof.
  unfold Qnat. intros H. apply Nat2Z.inj.
  unfold Qeq in H. cbn in H. lia.
Qed.

(** The score times the number of respondents is a hundred times the
    promoters less the detractors. *)
Lemma nps_score_times_total (scores : list number) :
  (0 < List.length scores)%nat ->
  (nps_score scores * Qnat (List.length scores)
   == (Qnat (promoters_of scores) - Qnat (detractors_of scores)) * 100)%Q.
Proof.
  intros P. pose proof (Qnat_pos _ P) as T.
  unfold nps_score, percentage. field. lra.
Qed.

(** X8: the score reaches 100 exactly when every respondent is a promoter,
    and -100 exactly when every respondent is a detractor. *)
Theorem nps_score_extremes (scores : list number) :
  (0 < List.length scores)%nat ->
  ((nps_score scores == 100)%Q
   <-> Forall (fun v => is_promoter v = true) scores)
  /\ ((nps_score scores == -100)%Q
      <-> Forall (fun v => is_detractor v = true) scores).
Proof.
  intros P.
  pose proof (nps_score_times_total scores P) as S.
  pose proof (Qnat_pos _ P) as T.
  pose proof (band_counts_le_total scores) as B.
  pose proof (Qnat_nonneg (promoters_of scores)) as P0.
  pose proof (Qnat_nonneg (detractors_of scores)) as D0.
  pose proof (Qnat_le _ _ (promoters_le_total scores)) as PT.
  pose proof (Qnat_le _ _ (detractors_le_total scores)) as DT.
  split; rewrite <- series_sum_full.
  - rewrite <- promoters_of_mask. split.
    + intros E. rewrite E in S. apply Qnat_inj. lra.
    + intros E. assert (D : detractors_of scores = 0%nat) by lia.
      rewrite E, D in S. change (Qnat 0) with 0%Q in S.
      apply (Qmult_inj_r _ _ (Qnat (List.length scores))); lra.
  - rewrite <- detractors_of_mask. split.
    + intros E. rewrite E in S. apply Qnat_inj. lra.
    + intros E. assert (D : promoters_of scores = 0%nat) by lia.
      rewrite E, D in S. change (Qnat 0) with 0%Q in S.
      apply (Qmult_inj_r _ _ (Qnat (List.length scores))); lra.
Qed.

Lemma nps_score_extremes_witness :
  (nps_score [Finite 10; PosInf; Finite 9] == 100)%Q.
Proof.
  apply (nps_score_extremes [Finite 10; PosInf; Finite 9]); [cbn; lia |].
  repeat constructor.
Defined.

(** X9: the sign of the score is the sign of promoters less detractors:
    positive exactly when the promoters outnumber the detractors, zero
    exactly when they are as many. *)
Theorem nps_score_sign (scores : list number) :
  (0 < List.length scores)%nat ->
  ((0 < nps_score scores)%Q
   <-> (detractors_of scores < promoters_of scores)%nat)
  /\ ((nps_score scores == 0)%Q
      <-> promoters_of scores = detractors_of scores).
Proof.
  intros P.
  pose proof (nps_score_times_total scores P) as Hs.
  pose proof (Qnat_pos _ P) as T.
  set (s := nps_score scores) in *. set (t := Qnat (List.length scores)) in *.
  split; split.
  - intros H. assert (M : (0 < s * t)%Q) by nra.
    destruct (Nat.lt_ge_cases (detractors_of scores) (promoters_of scores))
      as [L | L]; [exact L |].
    apply Qnat_le in L. lra.
  - intros H. assert (L : (S (detractors_of scores) <= promoters_of scores)%nat)
      by lia.
    apply Qnat_le in L. rewrite Qnat_S in L. nra.
  - intros E. apply Qnat_inj. rewrite E in Hs. lra.
  - intros E. rewrite E in Hs.
    assert (Z : (s * t == 0)%Q) by lra. nra.
Qed.

Lemma nps_score_sign_witness :
  (nps_score [Finite 9; Finite 2; Finite 7; Finite 10] > 0)%Q.
Proof.
  apply (nps_score_sign [Finite 9; Finite 2; Finite 7; Finite 10]);
    [cbn; lia | vm_compute; lia].
Defined.

Lemma scores_of_perm (parse_number : str -> option number) (col col' : Series) :
  Permutation col col' ->
  Permutation (scores_of parse_number col) (scores_of parse_number col').
Proof.
  intros H. unfold scores_of, dropna.
  apply Permutation_flat_map. now apply Permutation_map.
Qed.

Lemma series_sum_perm (f : number -> bool) (s s' : list number) :
  Permutation s s' -> series_sum (map f s) = series_sum (map f s').
Proof.
  intros H. unfold series_sum.
  apply Permutation_count_occ. now apply Permutation_map.
Qed.

Lemma report_perm (s s' : list number) :
  Permutation s s' -> report s = report s'.
Proof.
  intros H. unfold report, nps_score.
  rewrite !promoters_of_mask, !passives_of_mask, !detractors_of_mask.
  rewrite (series_sum_perm is_promoter s s' H),
    (series_sum_perm is_passive s s' H),
    (series_sum_perm is_detractor s s' H), (Permutation_length H).
  reflexivity.
Qed.

(** X10: the order of the respondents does not matter: two frames whose
    score columns hold the same cells in another order give the same run,
    line for line. *)
Theorem calculate_nps_order_free
    (parse_number : str -> option number) (df df' : DataFrame)
    (col col' : Series) :
  getitem df (py "nps") = ret (OneSeries col) ->
  getitem df' (py "nps") = ret (OneSeries col') ->
  Permutation col col' ->
  calculate_nps parse_number df = calculate_nps parse_number df'.
Proof.
  intros G G' H.
  rewrite (calculate_nps_series _ _ _ G), (calculate_nps_series _ _ _ G').
  pose proof (scores_of_perm parse_number col col' H) as Hs.
  rewrite (report_perm _ _ Hs).
  destruct (scores_of parse_number col) as [| x l],
    (scores_of parse_number col') as [| y l']; try reflexivity.
  - apply Permutation_nil in Hs. discriminate.
  - apply Permutation_sym, Permutation_nil in Hs. discriminate.
Qed.

Lemma calculate_nps_order_free_witness :
  calculate_nps parse_integer survey
  = calculate_nps parse_integer [(py "nps", rev survey_nps)].
Proof.
  apply (calculate_nps_order_free parse_integer survey
           [(py "nps", rev survey_nps)] survey_nps (rev survey_nps));
    [reflexivity | reflexivity | apply Permutation_rev].
Defined.

Lemma integral_one_band (v : number) :
  integral v -> List.length (bands v) = 1%nat.
Proof.
  destruct v as [| q |]; [reflexivity | | reflexivity].
  intros [z E]. pose proof (bands_at_most_one (Finite q)) as M.
  destruct (bands (Finite q)) as [| b l] eqn:B; [exfalso | cbn in *; lia].
  apply bands_gap in B. rewrite E in B.
  change 6%Q with (inject_Z 6) in B. change 7%Q with (inject_Z 7) in B.
  change 8%Q with (inject_Z 8) in B. change 9%Q with (inject_Z 9) in B.
  rewrite <- !Zlt_Qlt in B. lia.
Qed.

(** X11: when every score is a whole number (or infinite), every
    respondent is in a band: the three counts that [calculate_nps] prints
    add up to the total it prints. *)
Theorem band_counts_sum (scores : list number) :
  Forall integral scores ->
  (detractors_of scores + passives_of scores + promoters_of scores
   = List.length scores)%nat.
Proof.
  intros I. rewrite band_counts.
  induction I as [| v l Iv _ IH]; [reflexivity |].
  cbn [flat_map List.length]. rewrite length_app, IH.
  now rewrite (integral_one_band v Iv).
Qed.

Lemma band_counts_sum_witness :
  (detractors_of [Finite 9; Finite 2; Finite 7]
   + passives_of [Finite 9; Finite 2; Finite 7]
   + promoters_of [Finite 9; Finite 2; Finite 7] = 3)%nat.
Proof.
  apply (band_counts_sum [Finite 9; Finite 2; Finite 7]).
  repeat constructor; [exists 9%Z | exists 2%Z | exists 7%Z]; reflexivity.
Defined.

Lemma counts_with (f : number -> bool) (scores : list number) (v : number) :
  series_sum (map f (scores ++ [v]))
  = ((if f v then 1 else 0) + series_sum (map f scores))%nat.
Proof.
  rewrite map_app, series_sum_app. cbn [map]. rewrite series_sum_cons.
  unfold series_sum at 2. cbn. lia.
Qed.

(** X12: one more promoter never lowers the score, one more detractor never
    raises it. *)
Theorem nps_score_monotone (scores : list number) (v : number) :
  (0 < List.length scores)%nat ->
  (is_promoter v = true ->
   (nps_score scores <= nps_score (scores ++ [v]))%Q)
  /\ (is_detractor v = true ->
      (nps_score (scores ++ [v]) <= nps_score scores)%Q).
Proof.
  intros P.
  assert (P' : (0 < List.length (scores ++ [v]))%nat)
    by (rewrite length_app; cbn; lia).
  pose proof (nps_score_times_total scores P) as Hs.
  pose proof (nps_score_times_total (scores ++ [v]) P') as Hs'.
  pose proof (nps_score_range scores P) as [Lo Hi].
  pose proof (Qnat_pos _ P) as T.
  rewrite length_app in Hs'. cbn [List.length] in Hs'.
  rewrite Nat.add_1_r, Qnat_S in Hs'.
  rewrite promoters_of_mask, detractors_of_mask, !counts_with in Hs'.
  rewrite <- promoters_of_mask, <- detractors_of_mask in Hs'.
  set (s := nps_score scores) in *. set (s' := nps_score (scores ++ [v])) in *.
  set (t := Qnat (List.length scores)) in *.
  split; intros B.
  - destruct (promoter_only v B) as [_ D]. rewrite B, D in Hs'.
    cbn [Nat.add] in Hs'. rewrite Qnat_S in Hs'.
    assert (M : (0 <= (s' - s) * (t + 1))%Q) by lra. nra.
  - destruct (detractor_only v B) as [_ D]. rewrite B, D in Hs'.
    cbn [Nat.add] in Hs'. rewrite Qnat_S in Hs'.
    assert (M : (0 <= (s - s') * (t + 1))%Q) by lra. nra.
Qed.

Lemma nps_score_monotone_witness :
  (nps_score [Finite 7; Finite 3] <= nps_score ([Finite 7; Finite 3] ++ [Finite 12]))%Q.
Proof.
  apply (nps_score_monotone [Finite 7; Finite 3] (Finite 12));
    [cbn; lia | reflexivity].
Defined.

(* ===================================================================== *)
(** * Further properties of the demographic analysis *)
(* ===================================================================== *)

Lemma analyze_var_outcomes (df : DataFrame) (var : str) :
  analyze_var df var
  = match labelled var df with
    | [] => ([WarnColumnNotFound var], inr tt)
    | [col] => ([InfoAnalysis var; Tabulation (tabulation (snd col))], inr tt)
    | _ :: _ :: _ => ([InfoAnalysis var], inl ValueError)
    end.
Proof.
  destruct (labelled var df) as [| col [| col' rest]] eqn:L.
  - apply analyze_var_absent. now apply has_column_labelled.
  - apply analyze_var_series. unfold getitem. fold (labelled var df).
    now rewrite L.
  - assert (G : getitem df var = ret (SubFrame (map snd (col :: col' :: rest))))
      by now apply getitem_repeated.
    unfold analyze_var.
    rewrite (getitem_has_column _ _ _ G), bind_print, G, bind_ret_l.
    reflexivity.
Qed.

Lemma for_each_result (df : DataFrame) (vars : list str) :
  result (for_each (analyze_var df) vars)
  = if forallb (fun var => (List.length (labelled var df) <=? 1)%nat) vars
    then inr tt else inl ValueError.
Proof.
  induction vars as [| v vars IH]; [reflexivity |].
  cbn [for_each forallb]. rewrite analyze_var_outcomes.
  destruct (labelled v df) as [| col [| col' rest]]; cbn [List.length Nat.leb andb].
  - unfold bind. destruct (for_each (analyze_var df) vars) as [o r].
    exact IH.
  - unfold bind. destruct (for_each (analyze_var df) vars) as [o r].
    exact IH.
  - reflexivity.
Qed.

Lemma analyze_demographics_cases (df : DataFrame) :
  result (analyze_demographics df)
  = if forallb (fun var => (List.length (labelled var df) <=? 1)%nat)
         demographic_vars
    then inr tt else inl ValueError.
Proof.
  unfold analyze_demographics. rewrite bind_print. unfold result. cbn [snd].
  apply for_each_result.
Qed.

(** C8 fails as stated: an absent field is not warned about when a field
    before it in the list stands over two columns.  With two columns under
    sexo and none under depto the run stops in the tabulation of sexo, with
    a ValueError and without the warning. *)
Lemma analyze_demographics_stops_before_warning :
  ~ (forall (df : DataFrame) (var : str),
       In var demographic_vars ->
       has_column var df = false ->
       In (WarnColumnNotFound var) (printed (analyze_demographics df))
       /\ result (analyze_demographics df) = inr tt).
Proof.
  intros H.
  destruct (H [(py "sexo", []); (py "sexo", [])] (py "depto")) as [_ R];
    [cbn; auto | reflexivity | discriminate R].
Qed.

Example analyze_demographics_repeated_sexo :
  analyze_demographics [(py "sexo", []); (py "sexo", [])]
  = ([BannerDemographics; InfoAnalysis (py "sexo")], inl ValueError).
Proof. reflexivity. Qed.



(** X13: [analyze_demographics] returns normally exactly when none of its
    three labels stands over more than one column of the frame; when one
    does, the run ends in a ValueError. *)
Theorem analyze_demographics_result (df : DataFrame) :
  result (analyze_demographics df)
  = if forallb (fun var => (List.length (labelled var df) <=? 1)%nat)
         demographic_vars
    then inr tt else inl ValueError.
Proof. apply analyze_demographics_cases. Qed.

(** X14: a field that the frame has but whose cells are all missing is
    tabulated as an empty table, without an error and without a division. *)
Theorem analyze_var_all_missing (df : DataFrame) (var : str) (col : Series) :
  getitem df var = ret (OneSeries col) ->
  Forall (fun c => c = None) col ->
  analyze_var df var = ([InfoAnalysis var; Tabulation []], inr tt).
Proof.
  intros G M. rewrite (analyze_var_series _ _ _ G).
  assert (D : dropna col = []).
  { clear G. induction M as [| c l -> _ IH]; [reflexivity | exact IH]. }
  unfold tabulation, value_counts. now rewrite D.
Qed.

Lemma analyze_var_all_missing_witness :
  analyze_var [(py "depto", [None; None; None])] (py "depto")
  = ([InfoAnalysis (py "depto"); Tabulation []], inr tt).
Proof.
  apply (analyze_var_all_missing _ _ [None; None; None]);
    [reflexivity | repeat constructor].
Defined.

(** ** The order and the range of the printed rows *)

Lemma insert_desc_sorted (e : value * nat) (l : list (value * nat)) :
  StronglySorted (fun a b => (snd b <= snd a)%nat) l ->
  StronglySorted (fun a b => (snd b <= snd a)%nat) (insert_desc e l).
Proof.
  induction l as [| h t IH]; intros S.
  - cbn. constructor; constructor.
  - cbn [insert_desc]. inversion S as [| ? ? St Ft]; subst.
    destruct (Nat.leb_spec (snd h) (snd e)) as [L | L].
    + constructor; [exact S |]. constructor; [exact L |].
      rewrite Forall_forall in *. intros x I. specialize (Ft x I). lia.
    + constructor; [now apply IH |].
      rewrite Forall_forall in *. intros x I.
      apply (Permutation_in _ (insert_desc_perm e t)) in I.
      destruct I as [<- | I]; [lia | now apply Ft].
Qed.

Lemma sort_desc_sorted (l : list (value * nat)) :
  StronglySorted (fun a b => (snd b <= snd a)%nat) (sort_desc l).
Proof.
  unfold sort_desc. induction l as [| e l IH]; cbn [fold_right].
  - constructor.
  - now apply insert_desc_sorted.
Qed.

Lemma StronglySorted_map {A B} (R : A -> A -> Prop) (R' : B -> B -> Prop)
    (g : A -> B) (l : list A) :
  (forall a b, R a b -> R' (g a) (g b)) ->
  StronglySorted R l -> StronglySorted R' (map g l).
Proof.
  intros H. induction 1 as [| a l S IH F]; cbn [map]; constructor.
  - exact IH.
  - rewrite Forall_forall in *. intros y I.
    apply in_map_iff in I as (b & <- & I). now apply H, F.
Qed.

(** X15: the rows of a tabulation are printed from the most frequent value
    to the least frequent: down the table the percentages never increase. *)
Theorem tabulation_descending (s : Series) :
  StronglySorted (fun a b => (snd b <= snd a)%Q) (tabulation s).
Proof.
  rewrite tabulation_map.
  apply (StronglySorted_map (fun a b => (snd b <= snd a)%nat)).
  - intros a b L. cbn [snd]. now apply share_monotone.
  - unfold value_counts. apply sort_desc_sorted.
Qed.

Lemma occurrences_le_length (w : value) (vs : list value) :
  (occurrences w vs <= List.length vs)%nat.
Proof. unfold occurrences. apply filter_length_le. Qed.

(** X16: every percentage of a tabulation lies between 0 and 100, rounding
    included. *)
Theorem tabulation_percent_range (s : Series) (w : value) (p : Q) :
  In (w, p) (tabulation s) -> (0 <= p /\ p <= 100)%Q.
Proof.
  intros H. apply tabulation_rows in H as (n & I & ->).
  destruct (value_counts_spec s) as [C _]. rewrite (C w n I).
  rewrite total_value_counts.
  apply share_range, occurrences_le_length.
Qed.

Lemma tabulation_percent_range_witness :
  (0 <= share 4 6 /\ share 4 6 <= 100)%Q.
Proof.
  apply (tabulation_percent_range survey_sexo (Str (py "F"))).
  vm_compute. left. reflexivity.
Defined.




(* ===================================================================== *)
(** * Properties of the loader and of [main] *)
(* ===================================================================== *)

Lemma run_bind_ret_l {L E A B} (a : A) (f : A -> Run L E B) :
  run_bind (run_ret a) f = f a.
Proof. unfold run_bind, run_ret. destruct (f a) as [o r]. reflexivity. Qed.

Lemma run_bind_print {L E B} (l : L) (k : unit -> Run L E B) :
  run_bind (run_print l) k = (l :: fst (k tt), snd (k tt)).
Proof. unfold run_bind, run_print. destruct (k tt). reflexivity. Qed.

Lemma run_bind_pair {L E A B} (o : list L) (a : A) (f : A -> Run L E B) :
  run_bind (o, inr a) f = (o ++ fst (f a), snd (f a)).
Proof. unfold run_bind. destruct (f a). reflexivity. Qed.

Lemma startswith_app (b x : str) : startswith (b ++ x) b = true.
Proof.
  induction b as [| c b IH]; [now destruct x |].
  cbn. now rewrite N.eqb_refl, IH.
Qed.

Lemma endswith_app (x b : str) : endswith (x ++ b) b = true.
Proof. unfold endswith. rewrite rev_app_distr. apply startswith_app. Qed.

(** Whatever the directory, the joined path ends with the file name. *)
Lemma path_join_endswith (a b : str) : endswith (path_join a b) b = true.
Proof.
  unfold path_join. destruct (startswith b (py "/")).
  - apply (endswith_app [] b).
  - destruct (_ || _); [apply endswith_app |].
    rewrite app_assoc. apply endswith_app.
Qed.

(** X18: [load_main_dataset] never raises, whatever the reader does.  It
    asks for one file, whose name is baseZona2024.xlsx whatever the
    directory; it returns the frame when the reader returns one, and [None]
    after one error line when the reader fails. *)
Theorem load_main_dataset_outcomes (read_excel : reader) (data_dir : str) :
  exists file_path,
    endswith file_path (py "baseZona2024.xlsx") = true
    /\ load_main_dataset read_excel data_dir
       = match read_excel file_path with
         | inr df => ([LoadingDataset file_path; DatasetLoaded], inr (Some df))
         | inl (FileNotFoundError _) =>
             ([LoadingDataset file_path; ErrorFileNotFound file_path],
              inr None)
         | inl (OtherError e) =>
             ([LoadingDataset file_path; ErrorLoading e], inr None)
         end.
Proof.
  exists (path_join data_dir (py "baseZona2024.xlsx")).
  split; [apply path_join_endswith |].
  unfold load_main_dataset. rewrite run_bind_print.
  destruct (read_excel _) as [[m | m] | df]; reflexivity.
Qed.

Lemma main_load (U : UnicodeData) (parse_number : str -> option number)
    (read_excel : reader) :
  main U parse_number read_excel
  = match read_excel main_file with
    | inr df =>
        (LoadingDataset main_file :: DatasetLoaded
           :: fst (df <- step (clean_column_names U df) ;;
                   step (analyze_demographics df) ;;
                   step (calculate_nps parse_number df) ;;
                   run_print AnalysisComplete)%run,
         snd (df <- step (clean_column_names U df) ;;
              step (analyze_demographics df) ;;
              step (calculate_nps parse_number df) ;;
              run_print AnalysisComplete)%run)
    | inl (FileNotFoundError _) =>
        ([LoadingDataset main_file; ErrorFileNotFound main_file], inr tt)
    | inl (OtherError e) =>
        ([LoadingDataset main_file; ErrorLoading e], inr tt)
    end.
Proof.
  assert (L : load_main_dataset read_excel (py "/tmp/datos/datos")
              = match read_excel main_file with
                | inr df =>
                    ([LoadingDataset main_file; DatasetLoaded], inr (Some df))
                | inl (FileNotFoundError _) =>
                    ([LoadingDataset main_file; ErrorFileNotFound main_file],
                     inr None)
                | inl (OtherError e) =>
                    ([LoadingDataset main_file; ErrorLoading e], inr None)
                end).
  { unfold load_main_dataset.
    change (path_join (py "/tmp/datos/datos") (py "baseZona2024.xlsx"))
      with main_file.
    rewrite run_bind_print.
    destruct (read_excel main_file) as [[m | m] | df]; reflexivity. }
  unfold main. rewrite L.
  destruct (read_excel main_file) as [[m | m] | df];
    rewrite run_bind_pair; reflexivity.
Qed.

(** X19: when the spreadsheet cannot be read, [main] stops after the
    loading line and one error line: it returns normally, runs no analysis
    step and does not announce completion. *)
Theorem main_without_dataset (U : UnicodeData)
    (parse_number : str -> option number) (read_excel : reader)
    (e : read_error) :
  read_excel main_file = inl e ->
  snd (main U parse_number read_excel) = inr tt
  /\ List.length (fst (main U parse_number read_excel)) = 2%nat
  /\ (forall l, ~ In (Step l) (fst (main U parse_number read_excel)))
  /\ ~ In AnalysisComplete (fst (main U parse_number read_excel)).
Proof.
  intros R. rewrite main_load, R.
  destruct e as [m | m]; cbn; intuition discriminate.
Qed.

Lemma main_without_dataset_witness :
  fst (main Excerpt.ucd parse_integer (fun p => inl (FileNotFoundError p)))
  = [LoadingDataset main_file; ErrorFileNotFound main_file]
  /\ snd (main Excerpt.ucd parse_integer
               (fun p => inl (FileNotFoundError p))) = inr tt.
Proof.
  split; [reflexivity |].
  apply (main_without_dataset Excerpt.ucd parse_integer
           (fun p => inl (FileNotFoundError p)) (FileNotFoundError main_file)).
  reflexivity.
Defined.

Lemma step_bind {A B} (m : Out A) (k : A -> Run script_line exn B) :
  run_bind (step m) k
  = match snd m with
    | inl e => (map Step (fst m), inl e)
    | inr a => (map Step (fst m) ++ fst (k a), snd (k a))
    end.
Proof.
  destruct m as [o [e | a]]; unfold step, run_bind; cbn [fst snd];
    [reflexivity |].
  now destruct (k a).
Qed.


(** The run of [main] on a spreadsheet that loads with columns. *)
Lemma main_loaded (U : UnicodeData) (parse_number : str -> option number)
    (read_excel : reader) (df : DataFrame) :
  read_excel main_file = inr df ->
  df <> [] ->
  main U parse_number read_excel
  = (LoadingDataset main_file :: DatasetLoaded
       :: map Step [BannerCleaning; CleanedOk; CleanedExample]
       ++ match snd (analyze_demographics (clean_frame U df)) with
          | inl _ => map Step (fst (analyze_demographics (clean_frame U df)))
          | inr _ =>
              map Step (fst (analyze_demographics (clean_frame U df)))
              ++ match snd (calculate_nps parse_number (clean_frame U df)) with
                 | inl _ =>
                     map Step
                       (fst (calculate_nps parse_number (clean_frame U df)))
                 | inr _ =>
                     map Step
                       (fst (calculate_nps parse_number (clean_frame U df)))
                     ++ [AnalysisComplete]
                 end
          end,
     match snd (analyze_demographics (clean_frame U df)) with
     | inl e => inl e
     | inr _ =>
         match snd (calculate_nps parse_number (clean_frame U df)) with
         | inl e => inl e
         | inr _ => inr tt
         end
     end).
Proof.
  intros R N. rewrite main_load, R.
  rewrite step_bind, clean_column_names_frame by exact N. cbn [fst snd].
  rewrite step_bind.
  destruct (snd (analyze_demographics (clean_frame U df))) as [e | []];
    [reflexivity |].
  cbn [fst snd]. rewrite step_bind.
  destruct (snd (calculate_nps parse_number (clean_frame U df))) as [e | []];
    reflexivity.
Qed.





(** X21: the cleaning is what lets the later steps find their columns.
    When exactly one column of the loaded spreadsheet has a label that
    cleans to nps (NPS, Nps, ...), that column holds at least one number
    and no demographic label is repeated, [main] prints the loading lines,
    the three lines of the cleaning, the demographic analysis of the
    cleaned frame, the report of that column and the completion line. *)
Theorem main_reports_nps (U : UnicodeData)
    (parse_number : str -> option number) (read_excel : reader)
    (df : DataFrame) (label : str) (col : Series) :
  read_excel main_file = inr df ->
  filter (fun c => str_eqb (py "nps") (cleaned U (fst c))) df
  = [(label, col)] ->
  forallb (at_most_once U df) demographic_vars = true ->
  (0 < List.length (scores_of parse_number col))%nat ->
  main U parse_number read_excel
  = (LoadingDataset main_file :: DatasetLoaded
       :: map Step
            ([BannerCleaning; CleanedOk; CleanedExample]
             ++ printed (analyze_demographics (clean_frame U df))
             ++ report (scores_of parse_number col))
       ++ [AnalysisComplete],
     inr tt).
Proof.
  intros R L D P.
  assert (Ne : df <> []) by (intros ->; discriminate L).
  rewrite (main_loaded U parse_number read_excel df R Ne).
  pose proof (analyze_demographics_cases (clean_frame U df)) as Dr.
  unfold result in Dr.
  change (forallb (fun var => (List.length (labelled var (clean_frame U df))
                               <=? 1)%nat) demographic_vars)
    with (forallb (at_most_once U df) demographic_vars) in Dr.
  rewrite D in Dr. rewrite Dr.
  assert (N : calculate_nps parse_number (clean_frame U df)
              = (report (scores_of parse_number col), inr tt)).
  { rewrite calculate_nps_cases, labelled_clean_frame, L. cbn [map snd].
    destruct (scores_of parse_number col); [cbn in P; lia | reflexivity]. }
  rewrite N. cbn [fst snd]. unfold printed.
  rewrite !map_app, <- !app_assoc. reflexivity.
Qed.

Lemma main_reports_nps_witness :
  main Excerpt.ucd parse_integer (fun _ => inr raw_survey)
  = (LoadingDataset main_file :: DatasetLoaded
       :: map Step
            ([BannerCleaning; CleanedOk; CleanedExample]
             ++ printed (analyze_demographics
                           (clean_frame Excerpt.ucd raw_survey))
             ++ report (scores_of parse_integer survey_nps))
       ++ [AnalysisComplete],
     inr tt).
Proof.
  apply (main_reports_nps Excerpt.ucd parse_integer (fun _ => inr raw_survey)
           raw_survey (py "NPS") survey_nps);
    [reflexivity | reflexivity | reflexivity | vm_compute; lia].
Defined.

(* ===================================================================== *)
(** * Properties of the explorer *)
(* ===================================================================== *)

(** ** The order of [sorted] *)

Lemma str_leb_total (a b : str) : str_leb a b = true \/ str_leb b a = true.
Proof.
  revert b. induction a as [| x a IH]; intros [| y b]; cbn; auto.
  destruct (N.ltb_spec x y), (N.ltb_spec y x); auto; try lia.
Qed.

Lemma str_leb_antisym (a b : str) :
  str_leb a b = true -> str_leb b a = true -> a = b.
Proof.
  revert b. induction a as [| x a IH]; intros [| y b]; cbn;
    try reflexivity; try discriminate.
  destruct (N.ltb_spec x y), (N.ltb_spec y x); try discriminate; try lia.
  intros H1 H2. assert (x = y) as -> by lia. f_equal. now apply IH.
Qed.

Lemma str_leb_trans (a b c : str) :
  str_leb a b = true -> str_leb b c = true -> str_leb a c = true.
Proof.
  revert b c. induction a as [| x a IH]; intros [| y b] [| z c]; cbn;
    try reflexivity; try discriminate.
  destruct (N.ltb_spec x y), (N.ltb_spec y x), (N.ltb_spec y z),
    (N.ltb_spec z y), (N.ltb_spec x z), (N.ltb_spec z x);
    try reflexivity; try discriminate; try lia.
  apply IH.
Qed.

Lemma insert_sorted_comm (x y : str) (l : list str) :
  insert_sorted x (insert_sorted y l) = insert_sorted y (insert_sorted x l).
Proof.
  induction l as [| h t IH].
  - cbn. destruct (str_leb x y) eqn:XY, (str_leb y x) eqn:YX; try reflexivity.
    + now rewrite (str_leb_antisym x y XY YX).
    + destruct (str_leb_total x y); congruence.
  - cbn [insert_sorted].
    destruct (str_leb y h) eqn:YH, (str_leb x h) eqn:XH; cbn [insert_sorted];
      rewrite ?YH, ?XH.
    + destruct (str_leb x y) eqn:XY, (str_leb y x) eqn:YX; try reflexivity.
      * now rewrite (str_leb_antisym x y XY YX).
      * destruct (str_leb_total x y); congruence.
    + destruct (str_leb x y) eqn:XY; [| reflexivity].
      rewrite (str_leb_trans x y h XY YH) in XH. discriminate.
    + destruct (str_leb y x) eqn:YX; [| reflexivity].
      rewrite (str_leb_trans y x h YX XH) in YH. discriminate.
    + now rewrite IH.
Qed.

Lemma sorted_perm (l l' : list str) :
  Permutation l l' -> sorted l = sorted l'.
Proof.
  unfold sorted. induction 1; cbn [fold_right].
  - reflexivity.
  - now f_equal.
  - apply insert_sorted_comm.
  - congruence.
Qed.

Lemma insert_sorted_perm (x : str) (l : list str) :
  Permutation (insert_sorted x l) (x :: l).
Proof.
  induction l as [| h t IH]; cbn [insert_sorted]; [reflexivity |].
  destruct (str_leb x h); [reflexivity |]. rewrite IH. apply perm_swap.
Qed.

Lemma sorted_permutation (l : list str) : Permutation (sorted l) l.
Proof.
  unfold sorted. induction l as [| x l IH]; cbn [fold_right]; [reflexivity |].
  rewrite insert_sorted_perm. now constructor.
Qed.

Lemma insert_sorted_sorted (x : str) (l : list str) :
  StronglySorted (fun a b => str_leb a b = true) l ->
  StronglySorted (fun a b => str_leb a b = true) (insert_sorted x l).
Proof.
  induction l as [| h t IH]; intros S.
  - cbn. constructor; constructor.
  - cbn [insert_sorted]. inversion S as [| ? ? St Ft]; subst.
    destruct (str_leb x h) eqn:XH.
    + constructor; [exact S |]. constructor; [exact XH |].
      rewrite Forall_forall in *. intros z I.
      apply (str_leb_trans x h z XH). now apply Ft.
    + constructor; [now apply IH |].
      rewrite Forall_forall in *. intros z I.
      apply (Permutation_in _ (insert_sorted_perm x t)) in I.
      destruct I as [<- | I]; [| now apply Ft].
      destruct (str_leb_total h x); congruence.
Qed.

Lemma sorted_sorted (l : list str) :
  StronglySorted (fun a b => str_leb a b = true) (sorted l).
Proof.
  unfold sorted. induction l as [| x l IH]; cbn [fold_right].
  - constructor.
  - now apply insert_sorted_sorted.
Qed.

(** ** The loop over the files *)

Lemma explore_file_returns (U : UnicodeData) (W : World) (p n : str) :
  snd (explore_file U W p n) = inr tt.
Proof.
  unfold explore_file. destruct (isdir W (path_join p n)); [reflexivity |].
  rewrite !run_bind_print. cbn [snd].
  destruct (kind_of U n) as [k |]; [| reflexivity].
  destruct (read_as W k (path_join p n)); reflexivity.
Qed.

Lemma for_each_file_returns (body : str -> Run explore_line str unit)
    (names : list str) :
  (forall n, snd (body n) = inr tt) ->
  for_each_file body names
  = (flat_map (fun n => fst (body n)) names, inr tt).
Proof.
  intros H. induction names as [| n names IH]; [reflexivity |].
  cbn [for_each_file flat_map]. rewrite IH.
  specialize (H n). destruct (body n) as [o r]. cbn in H. subst r.
  reflexivity.
Qed.

Lemma explore_data_cases (U : UnicodeData) (W : World) (p : str) :
  explore_data U W p
  = if isdir W p then
      match listdir W p with
      | inl e => ([StartExploration p], inl e)
      | inr names =>
          (StartExploration p
             :: flat_map (fun n => fst (explore_file U W p n)) (sorted names)
             ++ [ExplorationComplete],
           inr tt)
      end
    else ([StartExploration p; ErrorNotDirectory p], inr tt).
Proof.
  unfold explore_data. rewrite run_bind_print.
  destruct (isdir W p); cbn [negb]; [| reflexivity].
  destruct (listdir W p) as [e | names]; [reflexivity |].
  rewrite (for_each_file_returns _ _ (explore_file_returns U W p)).
  reflexivity.
Qed.

(** X22: a file that cannot be read never ends the exploration.  On a path
    that is no directory the explorer prints its banner and the error and
    returns; on a directory it prints the banner, the lines of each entry
    in sorted order, one entry after the other, and the completion line;
    it raises only when the directory itself cannot be listed. *)
Theorem explore_data_outcomes (U : UnicodeData) (W : World) (p : str) :
  explore_data U W p
  = if isdir W p then
      match listdir W p with
      | inl e => ([StartExploration p], inl e)
      | inr names =>
          (StartExploration p
             :: flat_map (fun n => fst (explore_file U W p n)) (sorted names)
             ++ [ExplorationComplete],
           inr tt)
      end
    else ([StartExploration p; ErrorNotDirectory p], inr tt).
Proof. apply explore_data_cases. Qed.

(** X23: the output does not depend on the order in which the system lists
    the directory: two listings with the same names give the same run. *)
Theorem explore_data_listing_order (U : UnicodeData) (W : World) (p : str)
    (listing listing' : str -> str + list str) (names names' : list str) :
  listing p = inr names ->
  listing' p = inr names' ->
  Permutation names names' ->
  explore_data U (relisted W listing) p
  = explore_data U (relisted W listing') p.
Proof.
  intros L L' P. rewrite !explore_data_cases. cbn [relisted isdir listdir].
  rewrite L, L', (sorted_perm _ _ P). reflexivity.
Qed.

Lemma explore_data_listing_order_witness :
  explore_data Excerpt.ucd disk (py "/data")
  = explore_data Excerpt.ucd
      (relisted disk
         (fun _ => inr [py "notes.txt"; py "a.xlsx"; py "old"; py "b.CSV"]))
      (py "/data").
Proof.
  apply (explore_data_listing_order Excerpt.ucd disk (py "/data")
           (listdir disk)
           (fun _ => inr [py "notes.txt"; py "a.xlsx"; py "old"; py "b.CSV"])
           [py "b.CSV"; py "old"; py "a.xlsx"; py "notes.txt"]
           [py "notes.txt"; py "a.xlsx"; py "old"; py "b.CSV"]);
    [reflexivity | reflexivity |].
  apply (Permutation_rev [py "b.CSV"; py "old"; py "a.xlsx"; py "notes.txt"]).
Defined.

Lemma analyzed_app (a b : list explore_line) :
  analyzed (a ++ b) = analyzed a ++ analyzed b.
Proof. unfold analyzed. apply flat_map_app. Qed.

Lemma analyzed_explore_file (U : UnicodeData) (W : World) (p n : str) :
  analyzed (fst (explore_file U W p n))
  = if isdir W (path_join p n) then [] else [n].
Proof.
  unfold explore_file. destruct (isdir W (path_join p n)); [reflexivity |].
  rewrite !run_bind_print. cbn [fst snd].
  destruct (kind_of U n) as [k |]; [| reflexivity].
  destruct (read_as W k (path_join p n)); reflexivity.
Qed.

(** X24: the explorer announces every entry of the directory that is not
    itself a directory, once each and in lexicographic order of the names;
    sub-directories leave no trace in the output. *)
Theorem explore_data_analyzed (U : UnicodeData) (W : World) (p : str)
    (names : list str) :
  isdir W p = true ->
  listdir W p = inr names ->
  analyzed (fst (explore_data U W p))
  = filter (fun n => negb (isdir W (path_join p n))) (sorted names)
  /\ StronglySorted (fun a b => str_leb a b = true) (sorted names)
  /\ Permutation (sorted names) names.
Proof.
  intros D L. split; [| split; [apply sorted_sorted | apply sorted_permutation]].
  rewrite explore_data_cases, D, L. cbn [fst].
  change (StartExploration p :: ?l) with ([StartExploration p] ++ l).
  rewrite !analyzed_app. cbn [analyzed flat_map app]. rewrite app_nil_r.
  induction (sorted names) as [| n l IH]; [reflexivity |].
  cbn [flat_map filter]. rewrite analyzed_app, analyzed_explore_file, IH.
  now destruct (isdir W (path_join p n)).
Qed.

Lemma explore_data_analyzed_witness :
  analyzed (fst (explore_data Excerpt.ucd disk (py "/data")))
  = [py "a.xlsx"; py "b.CSV"; py "notes.txt"].
Proof.
  destruct (explore_data_analyzed Excerpt.ucd disk (py "/data")
              [py "b.CSV"; py "old"; py "a.xlsx"; py "notes.txt"]
              eq_refl eq_refl) as [A _].
  rewrite A. reflexivity.
Defined.

Lemma lower_ascii_name (U : UnicodeData) (s : str) :
  ascii_tables U -> ascii_only s = true -> lower U s = map ascii_lower s.
Proof. intros (L & _ & _) A. now apply do_lower_ascii. Qed.

(** X25: the choice of the reader looks at the extension without regard
    to case: a name in ASCII that ends in any spelling of .csv, .xlsx or
    .sav goes to the reader of that format. *)
Theorem kind_of_extension (U : UnicodeData) (stem ext : str) (k : file_kind) :
  ascii_tables U ->
  ascii_only stem = true ->
  ascii_only ext = true ->
  map ascii_lower ext = extension k ->
  kind_of U (stem ++ ext) = Some k.
Proof.
  intros T As Ae E.
  assert (A : ascii_only (stem ++ ext) = true)
    by (unfold ascii_only in *; rewrite forallb_app; now rewrite As, Ae).
  unfold kind_of. rewrite (lower_ascii_name U _ T A), map_app, E.
  destruct k; cbn [extension].
  - now rewrite endswith_app.
  - replace (endswith (map ascii_lower stem ++ py ".xlsx") (py ".csv"))
      with false
      by (unfold endswith; rewrite rev_app_distr; reflexivity).
    now rewrite endswith_app.
  - replace (endswith (map ascii_lower stem ++ py ".sav") (py ".csv"))
      with false
      by (unfold endswith; rewrite rev_app_distr; reflexivity).
    replace (endswith (map ascii_lower stem ++ py ".sav") (py ".xlsx"))
      with false
      by (unfold endswith; rewrite rev_app_distr; reflexivity).
    now rewrite endswith_app.
Qed.

Lemma kind_of_extension_witness :
  kind_of Excerpt.ucd (py "Base2024" ++ py ".XLSX") = Some Xlsx.
Proof.
  apply (kind_of_extension Excerpt.ucd (py "Base2024") (py ".XLSX") Xlsx
           excerpt_ascii_tables); reflexivity.
Defined.

(** The explorer on the sample directory: the spreadsheet that cannot be
    opened is reported with its reason, the table is previewed, the text
    file is skipped, the sub-directory is passed over. *)
Example explore_disk :
  explore_data Excerpt.ucd disk (py "/data")
  = ([StartExploration (py "/data");
      Rule; AnalyzingFile (py "a.xlsx"); Rule;
      ErrorCouldNotRead (py "a.xlsx"); Reason (py "File is not a zip file");
      Rule; AnalyzingFile (py "b.CSV"); Rule;
      InfoFirstRows; PrintHead (head survey);
      InfoColumnNames; PrintColumns [py "sexo"; py "nps"];
      InfoDataTypes;
      PrintDtypes [(py "sexo", py "object"); (py "nps", py "object")];
      Rule; AnalyzingFile (py "notes.txt"); Rule;
      SkippingUnsupported (py "notes.txt");
      ExplorationComplete], inr tt).
Proof. reflexivity. Qed.
